(** * Order-book and trade-flow imbalance features of bybit-smm

    A shallow embedding of [src/strategy/features/ob_imbalance.py] and
    [src/strategy/features/trades_imbalance.py].

    - A [float64] is a primitive binary64 float, so every [+], [-], [*], [/]
      and comparison below is the IEEE-754 operation the compiled code runs.
    - Both functions are compiled with [@njit]; all values are native
      [float64]/[int64].  A scalar [a / b] follows Python's error model (the
      default [error_model] of the decorator): a zero divisor raises
      [ZeroDivisionError].  An array divided by a scalar ([depths / 1e-4]) is
      the element-wise IEEE division and never raises.
    - Compiled code does not check an index: [arr[i]] past the end of an
      array raises nothing and yields whatever float64 the memory holds
      there.
    - [np.log] and the weight generator [ema_weights] (imported from
      [src.indicators.ema]) are not part of the two source files; with the
      memory found past the end of an array they are the fields of the class
      [Externals]. *)

From Stdlib Require Import ZArith List Sorted Bool Lia Floats Reals Lra Psatz.
Import ListNotations.

(** ** Python exceptions and results *)

Inductive exn : Set :=
| ZeroDivisionError
| ValueError.

Inductive result (A : Type) : Type :=
| Ok (a : A)
| Raise (e : exn).

Arguments Ok {A} a.
Arguments Raise {A} e.

Definition bind {A B : Type} (r : result A) (k : A -> result B) : result B :=
  match r with
  | Ok a => k a
  | Raise e => Raise e
  end.

Notation "x <- r ;; k" := (bind r (fun x => k))
  (at level 61, r at next level, right associativity).

Definition raises {A : Type} (r : result A) : Prop :=
  exists e, r = Raise e.

Definition returns {A : Type} (r : result A) : Prop :=
  exists a, r = Ok a.

(** ** The float64 and array primitives the two functions use *)

Module Np.
Open Scope float_scope.

(** The literal [1e-4]: the binary64 value nearest to one ten-thousandth. *)
Definition bps : float := 0x1.a36e2eb1c432dp-14.

(** [p >= q] on float64: false as soon as one side is NaN. *)
Definition geb (p q : float) : bool := q <=? p.

(** Scalar [a / b] in compiled code: Python's error model. *)
Definition truediv (a b : float) : result float :=
  if b =? 0 then Raise ZeroDivisionError else Ok (a / b).

(** [arr[i]] for [0 <= i], as compiled code reads it: the index is not
    checked.  Inside the array the read yields the element; past the end it
    raises nothing and yields [beyond i], whatever the memory holds there. *)
Definition getitem {A : Type} (beyond : nat -> A) (arr : list A) (i : nat)
  : A :=
  nth i arr (beyond i).

(** [np.sum(arr)] as compiled code runs it: the accumulator starts at
    [0.0] and adds the elements in index order. *)
Definition sum (arr : list float) : float := fold_left add arr 0.

(** [a * b] on two one-dimensional arrays, with NumPy's broadcasting: equal
    lengths multiply element-wise, a length-1 operand is stretched, any
    other pair of shapes is rejected. *)
Definition mul (a b : list float) : result (list float) :=
  if Nat.eqb (length a) (length b) then
    Ok (map (fun xy => fst xy * snd xy) (combine a b))
  else
    match a, b with
    | [x], _ => Ok (map (fun y => x * y) b)
    | _, [y] => Ok (map (fun x => x * y) a)
    | _, _ => Raise ValueError
    end.

(** [[f(x) for x in xs]], stopping at the first exception. *)
Fixpoint map_each {X Y : Type} (f : X -> result Y)
         (xs : list X) : result (list Y) :=
  match xs with
  | [] => Ok []
  | x :: xs' => y <- f x ;; ys <- map_each f xs' ;; Ok (y :: ys)
  end.
End Np.

(** ** What the two functions take from outside *)

(** The arrays that are indexed by a scalar: the two price columns of the
    book, columns 1 and 3 of the tape, and the weights. *)
Inductive array : Set :=
| Bid_p
| Ask_p
| Trades_side
| Trades_size
| Weights.

Class Externals : Type := {
  (** [np.log] on a float64 scalar. *)
  np_log : float -> float;
  (** [ema_weights(window, reverse)]. *)
  ema_weights : Z -> bool -> result (list float);
  (** [stray a i]: the float64 that an unchecked read finds at index [i]
      past the end of the array [a]. *)
  stray : array -> nat -> float
}.

(** Two instances with the same logarithm and the same memory whose
    generators agree for one value of the [reverse] flag. *)
Definition agree_on (reverse : bool) (e1 e2 : Externals) : Prop :=
  (forall x, @np_log e1 x = @np_log e2 x)
  /\ (forall a i, @stray e1 a i = @stray e2 a i)
  /\ (forall n, @ema_weights e1 n reverse = @ema_weights e2 n reverse).

(** The contract of the generator called with [reverse=True]: the weight
    increases with the index. *)
Definition increasing (ws : list float) : Prop :=
  forall i j wi wj,
    (i <= j)%nat -> nth_error ws i = Some wi -> nth_error ws j = Some wj ->
    (wi <=? wj)%float = true.

(** ** [ob_imbalance.py] *)

Module OrderBook.
Open Scope float_scope.

(** One side of the book: rows [[price, quantity]], best price first. *)
Definition side_t : Type := list (float * float).

(** [depths = depths / 1e-4]. *)
Definition convert (depths : list float) : list float :=
  map (fun d => d / Np.bps) depths.

Definition min_bid (best_bid_p d : float) : float := best_bid_p * (1 - d).
Definition max_ask (best_ask_p d : float) : float := best_ask_p * (1 + d).

(** [bid_p[bid_p >= min_bid].size] *)
Definition num_bids_within_depth (bid_p : list float) (mb : float) : nat :=
  length (filter (fun p => Np.geb p mb) bid_p).

(** [ask_p[ask_p <= max_ask].size] *)
Definition num_asks_within_depth (ask_p : list float) (ma : float) : nat :=
  length (filter (fun p => p <=? ma) ask_p).

(** [np.sum(bid_q[:num_bids_within_depth])] *)
Definition total_bid_size_within_depth
           (bid_p bid_q : list float) (best_bid_p d : float) : float :=
  Np.sum (firstn (num_bids_within_depth bid_p (min_bid best_bid_p d)) bid_q).

Definition total_ask_size_within_depth
           (ask_p ask_q : list float) (best_ask_p d : float) : float :=
  Np.sum (firstn (num_asks_within_depth ask_p (max_ask best_ask_p d)) ask_q).

Section WithExternals.
Context {ext : Externals}.

(** The body of the loop for one converted depth [d = depths[i]]: the
    value stored in [imbalances[i]]. *)
Definition imbalance (bids asks : side_t) (best_bid_p best_ask_p d : float)
  : result float :=
  let bid_p := map fst bids in
  let bid_q := map snd bids in
  let ask_p := map fst asks in
  let ask_q := map snd asks in
  ratio <- Np.truediv (total_bid_size_within_depth bid_p bid_q best_bid_p d)
                      (total_ask_size_within_depth ask_p ask_q best_ask_p d) ;;
  Ok (np_log ratio).

Definition orderbook_imbalance (bids asks : side_t) (depths : list float)
  : result float :=
  let num_depths := Z.of_nat (length depths) in
  let depths := convert depths in
  weights <- ema_weights num_depths false ;;
  let best_bid_p := Np.getitem (stray Bid_p) (map fst bids) 0 in
  let best_ask_p := Np.getitem (stray Ask_p) (map fst asks) 0 in
  imbalances <- Np.map_each (imbalance bids asks best_bid_p best_ask_p) depths ;;
  weighted <- Np.mul imbalances weights ;;
  Ok (Np.sum weighted).
End WithExternals.

(** The price band of one depth, in the spec's words: the depth, given in
    basis points, is divided by [1e-4] and the quotient is the fractional
    multiplier applied to the two best prices. *)
Definition band (best_bid_p best_ask_p depth_i : float) : float * float :=
  (best_bid_p * (1 - depth_i / Np.bps), best_ask_p * (1 + depth_i / Np.bps)).

(** The imbalance of one depth computed from its band. *)
Definition band_imbalance {ext : Externals} (bids asks : side_t)
           (best_bid_p best_ask_p depth_i : float) : result float :=
  let '(lo, hi) := band best_bid_p best_ask_p depth_i in
  let k_bid := length (filter (fun p => lo <=? p) (map fst bids)) in
  let k_ask := length (filter (fun p => p <=? hi) (map fst asks)) in
  ratio <- Np.truediv (Np.sum (firstn k_bid (map snd bids)))
                      (Np.sum (firstn k_ask (map snd asks))) ;;
  Ok (np_log ratio).

(** The prices and the depths of the docstring, with quantities that are
    binary64 values. *)
Definition bids5 : side_t :=
  [(100, 0.5); (99.75, 0.125); (99.5, 0.5); (99.25, 0.75); (99, 0.25)].
Definition asks5 : side_t :=
  [(101, 0.75); (101.25, 0.25); (101.5, 0.125); (101.75, 0.5); (102, 1)].
Definition depths5 : list float := [10; 20; 30; 40; 50].

(** The float64 nearest to [0.3]. *)
Definition depth03 : float := 0x1.3333333333333p-2.

(** A mirrored book: the same prices and quantities on both sides. *)
Definition mirror : side_t := [(100, 0.5); (100, 0.25)].

(** The ask total of the band of one depth, given before conversion. *)
Definition ask_total (asks : side_t) (best_ask_p depth_i : float) : float :=
  total_ask_size_within_depth (map fst asks) (map snd asks) best_ask_p
                              (depth_i / Np.bps).

(** Bid prices best first: no price is above the one before it. *)
Definition descending (ps : list float) : Prop :=
  Sorted (fun p q => (q <=? p) = true) ps.

(** Ask prices best first: no price is below the one before it. *)
Definition ascending (ps : list float) : Prop :=
  Sorted (fun p q => (p <=? q) = true) ps.
End OrderBook.

(** ** [trades_imbalance.py] *)

Module Trades.
Open Scope float_scope.

(** A row [[time, side, price, size]] of the trade array. *)
Record trade : Set := Trade {
  time : float;
  side : float;
  price : float;
  size : float
}.

Section WithExternals.
Context {ext : Externals}.

(** [trades[i, 1]] *)
Definition trade_side (trades : list trade) (i : nat) : float :=
  Np.getitem (stray Trades_side) (map side trades) i.

(** [np.log(1 + trades[i, 3]) * weights[i]] *)
Definition weighted_qty (trades : list trade) (weights : list float)
           (i : nat) : float :=
  np_log (1 + Np.getitem (stray Trades_size) (map size trades) i)
  * Np.getitem (stray Weights) weights i.

(** One iteration of the loop on the pair [(delta_buys, delta_sells)]. *)
Definition step (trades : list trade) (weights : list float)
           (delta : float * float) (i : nat) : float * float :=
  let '(delta_buys, delta_sells) := delta in
  if trade_side trades i =? 0
  then (delta_buys + weighted_qty trades weights i, delta_sells)
  else (delta_buys, delta_sells + weighted_qty trades weights i).

(** The two totals after [for i in range(window)]. *)
Definition totals (trades : list trade) (weights : list float) (window : Z)
  : float * float :=
  fold_left (step trades weights) (seq 0 (Z.to_nat window)) (0, 0).

Definition trades_imbalance (trades : list trade) (window : Z)
  : result float :=
  let window := Z.min window (Z.of_nat (length trades)) in
  weights <- ema_weights window true ;;
  let '(delta_buys, delta_sells) := totals trades weights window in
  Np.truediv (delta_buys - delta_sells) (delta_buys + delta_sells).
End WithExternals.

(** The two columns the loop reads. *)
Definition columns (t : trade) : float * float := (side t, size t).

(** The pair of totals after adding one trade with its weight. *)
Definition add_trade {ext : Externals} (delta : float * float)
           (tw : trade * float) : float * float :=
  let qty := np_log (1 + size (fst tw)) * snd tw in
  if side (fst tw) =? 0
  then (fst delta + qty, snd delta)
  else (fst delta, snd delta + qty).

(** [window = min(window, trades.shape[0])] *)
Definition effective_window (trades : list trade) (window : Z) : Z :=
  Z.min window (Z.of_nat (length trades)).

(** The rows of the effective window, each with the weight of its index. *)
Definition window_rows (trades : list trade) (ws : list float) (window : Z)
  : list (trade * float) :=
  let n := Z.to_nat (effective_window trades window) in
  combine (firstn n trades) (firstn n ws).

(** The weighted quantity of a row: [np.log(1 + size) * weight]. *)
Definition qty {ext : Externals} (tw : trade * float) : float :=
  np_log (1 + size (fst tw)) * snd tw.

(** A row counted as a buy: its side compares equal to [0.0]. *)
Definition is_buy (tw : trade * float) : bool := side (fst tw) =? 0.

(** The two totals in the spec's words: the sum of the weighted quantities
    of the buys, and the sum of those of all the other rows. *)
Definition buy_total {ext : Externals} (rows : list (trade * float)) : float :=
  Np.sum (map qty (filter is_buy rows)).

Definition sell_total {ext : Externals} (rows : list (trade * float))
  : float :=
  Np.sum (map qty (filter (fun tw => negb (is_buy tw)) rows)).

(** The tape of the docstring, with sizes that are binary64 values. *)
Definition tape5 : list trade :=
  [ Trade 1e10 0 100.75 0.5; Trade 1e10 1 100.25 0.125;
    Trade 1e10 0 100.5 1; Trade 1e10 1 100.5 0.25;
    Trade 1e10 0 100.125 0.75 ].

(** The trade with the opposite side: a buy becomes a sell ([1.0]) and
    every other trade becomes a buy ([0.0]). *)
Definition swap_side (t : trade) : trade :=
  Trade (time t) (if side t =? 0 then 1 else 0) (price t) (size t).

(** One of the two totals is NaN. *)
Definition some_nan (d : float * float) : Prop :=
  is_nan (fst d) = true \/ is_nan (snd d) = true.
End Trades.

(** ** A reference instance of the imported functions

    Used to run the two functions on concrete inputs; every general theorem
    below quantifies over all instances of [Externals]. *)

Module Reference.
Open Scope float_scope.

(** [n] weights [w/2, w/4, ...], the last one repeated so that they add up
    to [w]. *)
Fixpoint halving (n : nat) (w : float) : list float :=
  match n with
  | O => []
  | S O => [w]
  | S n' => (w / 2) :: halving n' (w / 2)
  end.

(** Modelled from the spec: [ema_weights] is imported from
    [src.indicators.ema], which is not among the source files.  The spec
    gives its contract only: [n] non-negative weights summing to 1, decaying
    geometrically away from the high-weight end, [reverse] choosing whether
    the highest weight is at index [0] or at index [n-1]. *)
Definition geometric_weights (window : Z) (reverse : bool)
  : result (list float) :=
  let ws := halving (Z.to_nat window) 1 in
  Ok (if reverse then rev ws else ws).

(** The tangent of the logarithm at 1; it agrees with [np.log] at [1.0]
    and at [+inf]. *)
Definition log_tangent (x : float) : float := x - 1.

#[export] Instance externals : Externals :=
  {| np_log := log_tangent;
     ema_weights := geometric_weights;
     stray := fun _ _ => nan |}.
End Reference.

(** ** Binary64 values

    The vocabulary of the facts about float64 arithmetic that the theorems
    rest on: classes of floats, and the real number denoted by a mantissa
    and an exponent. *)

Module Binary64.
Local Open Scope Z_scope.

(** Neither NaN nor an infinity. *)
Definition finite (x : float) : Prop := is_finite x = true.

(** [x == 0.0]: [+0.0] or [-0.0]. *)
Definition zero (x : float) : Prop := (x =? 0)%float = true.

(** [x >= 0.0], or [x] is NaN. *)
Definition nonneg_or_nan (x : float) : Prop :=
  (0 <=? x)%float = true \/ is_nan x = true.

(** The sign of a float that is not NaN. *)
Definition signed (sg : bool) (x : spec_float) : Prop :=
  match x with
  | S754_zero s | S754_infinity s | S754_finite s _ _ => s = sg
  | S754_nan => False
  end.

(** The mantissa of the float64 literal [1e-4], whose exponent is [-66]. *)
Definition bps_m : positive := 7378697629483821.

(** [2^e] as a real number. *)
Definition pow2 (e : Z) : R := powerRZ 2 e.

(** The real number [m * 2^e]. *)
Definition F2R (m e : Z) : R := (IZR m * pow2 e)%R.

(** The mantissa and exponent of a float64 in normal form. *)
Definition canonical (m : positive) (e : Z) : Prop :=
  SpecFloat.bounded prec emax m e = true.

(** The reals denoted by a truncated mantissa and its location. *)
Definition inbetween (m e : Z) (l : location) (v : R) : Prop :=
  match l with
  | loc_Exact => v = F2R m e
  | loc_Inexact Lt => (F2R m e < v < (IZR m + / 2) * pow2 e)%R
  | loc_Inexact Eq => (v = (IZR m + / 2) * pow2 e)%R
  | loc_Inexact Gt => ((IZR m + / 2) * pow2 e < v < F2R (m + 1) e)%R
  end.

(** The same for a mantissa under right shift, with its round and sticky
    bits. *)
Definition inb (mrs : shr_record) (e : Z) (v : R) : Prop :=
  0 <= shr_m mrs /\ inbetween (shr_m mrs) e (loc_of_shr_record mrs) v.

(** The float made of a rounded mantissa [m2 <= 2^53] at exponent [e1]. *)
Definition encode (s : bool) (m2 e1 : Z) : spec_float :=
  match m2 with
  | Z0 => S754_zero s
  | Zpos p =>
      if m2 <? 2 ^ 53
      then (if e1 <=? 971 then S754_finite s p e1 else S754_infinity s)
      else (if e1 + 1 <=? 971
            then S754_finite s 4503599627370496 (e1 + 1)
            else S754_infinity s)
  | Zneg _ => S754_nan
  end.
End Binary64.

(** ** Facts about list prefixes *)

Module Lists.
Lemma In_firstn {A : Type} (x : A) (n : nat) (l : list A) :
  In x (firstn n l) -> In x l.
Proof.
  revert l. induction n as [|n IH]; intros [|y l] H; simpl in *; try tauto.
  destruct H as [H|H]; [left; exact H|right; apply IH; exact H].
Qed.

(** A read inside the array yields the element. *)
Lemma getitem_in_range {A : Type} (beyond : nat -> A) (arr : list A)
      (i : nat) (x : A) :
  nth_error arr i = Some x -> Np.getitem beyond arr i = x.
Proof. intros H. unfold Np.getitem. apply nth_error_nth. exact H. Qed.
End Lists.

(** ** Facts about binary64 arithmetic *)

Module F64.
Import Binary64.
Open Scope float_scope.

Lemma Prim2SF_0 : Prim2SF 0 = S754_zero false.
Proof. reflexivity. Qed.

Lemma Prim2SF_1 : Prim2SF 1 = S754_finite false 4503599627370496 (-52).
Proof. reflexivity. Qed.

Lemma is_finite_spec (x : float) :
  is_finite x =
  match Prim2SF x with
  | S754_zero _ | S754_finite _ _ _ => true
  | _ => false
  end.
Proof.
  unfold is_finite, is_nan, is_infinity.
  rewrite !eqb_spec, abs_spec.
  change (Prim2SF infinity) with (S754_infinity false).
  destruct (Prim2SF x) as [s|s| |s m e]; try destruct s; try reflexivity.
  all: unfold SFeqb, SFcompare; simpl;
    rewrite ?Z.compare_refl, ?Pos.compare_cont_refl; reflexivity.
Qed.

Lemma zero_spec (x : float) :
  (x =? 0) = match Prim2SF x with S754_zero _ => true | _ => false end.
Proof.
  rewrite eqb_spec, Prim2SF_0.
  destruct (Prim2SF x) as [s|s| |s m e]; try destruct s; reflexivity.
Qed.

(** Moving a goal about primitive floats to their specification. *)
Ltac to_spec :=
  repeat match goal with
  | H : context [is_finite _] |- _ => rewrite is_finite_spec in H
  | H : context [(_ =? 0)] |- _ => rewrite zero_spec in H
  | |- context [is_finite _] => rewrite is_finite_spec
  | |- context [(_ =? 0)] => rewrite zero_spec
  end;
  repeat first [ rewrite add_spec | rewrite sub_spec
               | rewrite mul_spec | rewrite div_spec ];
  rewrite ?Prim2SF_0, ?Prim2SF_1.

Lemma add_zero_zero (a b : float) : zero a -> zero b -> zero (a + b).
Proof.
  unfold zero. intros Ha Hb. to_spec.
  destruct (Prim2SF a) as [sa|sa| |sa ma ea]; try discriminate.
  destruct (Prim2SF b) as [sb|sb| |sb mb eb]; try discriminate.
  destruct sa, sb; reflexivity.
Qed.

Lemma sub_0_r (x : float) : x - 0 = x.
Proof.
  apply Prim2SF_inj. to_spec.
  destruct (Prim2SF x) as [s|s| |s m e]; try destruct s; reflexivity.
Qed.

Lemma add_0_r (x : float) : (x =? 0) = false -> x + 0 = x.
Proof.
  intros Hx. apply Prim2SF_inj. to_spec.
  destruct (Prim2SF x) as [s|s| |s m e]; try destruct s;
    try reflexivity; discriminate.
Qed.

Lemma add_0_l_zero (x : float) : zero x -> 0 + x = 0.
Proof.
  unfold zero. intros Hx. apply Prim2SF_inj. to_spec.
  destruct (Prim2SF x) as [s|s| |s m e]; try discriminate.
  destruct s; reflexivity.
Qed.

Lemma mul_0_l (w : float) : finite w -> zero (0 * w).
Proof.
  unfold finite, zero. intros Hw. to_spec.
  destruct (Prim2SF w) as [s|s| |s m e]; try discriminate; reflexivity.
Qed.

Lemma div_core_self (m : positive) (e : Z) :
  SFdiv_core_binary prec emax (Zpos m) e (Zpos m) e
  = (9007199254740992%Z, (-53)%Z, loc_Exact).
Proof.
  unfold SFdiv_core_binary.
  rewrite !Z.sub_diag.
  change (fexp prec emax 0) with (-53)%Z.
  change (Z.min (-53) 0) with (-53)%Z.
  change (0 - -53)%Z with 53%Z. cbv iota beta.
  rewrite Z.shiftl_mul_pow2 by lia.
  rewrite Z.mul_comm.
  assert (H : Z.div_eucl (2 ^ 53 * Z.pos m) (Z.pos m) = ((2 ^ 53)%Z, 0%Z)).
  { generalize (Z.div_eucl_eq (2 ^ 53 * Z.pos m) (Z.pos m)).
    generalize (Z.mod_pos_bound (2 ^ 53 * Z.pos m) (Z.pos m)).
    unfold Z.modulo. destruct Z.div_eucl as [q r]. intros Hb He.
    assert (0 <= r < Z.pos m)%Z by (apply Hb; lia).
    assert (Hm : Z.pos m <> 0%Z) by lia. specialize (He Hm).
    assert (q = 2 ^ 53)%Z by nia. subst q. f_equal. lia. }
  rewrite H.
  unfold new_location. destruct (Z.even (Z.pos m)); reflexivity.
Qed.

(** A finite non-zero float divided by itself is exactly [1.0]. *)
Lemma div_self (x : float) : finite x -> (x =? 0) = false -> x / x = 1.
Proof.
  unfold finite. intros Hf Hz. apply Prim2SF_inj. to_spec.
  destruct (Prim2SF x) as [s|s| |s m e]; try discriminate.
  unfold SF64div, SFdiv. rewrite div_core_self.
  rewrite xorb_nilpotent. reflexivity.
Qed.

Lemma pos_nonzero (x : float) : (0 <? x) = true -> (x =? 0) = false.
Proof.
  rewrite ltb_spec, zero_spec, Prim2SF_0.
  destruct (Prim2SF x) as [s|s| |s m e]; try destruct s;
    try reflexivity; discriminate.
Qed.

Lemma one_add_zero (x : float) : zero x -> 1 + x = 1.
Proof.
  unfold zero. intros Hx. apply Prim2SF_inj. to_spec.
  destruct (Prim2SF x) as [s|s| |s m e]; try discriminate. reflexivity.
Qed.

(** [(0 - x) / (0 + x)] is exactly [-1.0] for a finite non-zero [x]. *)
Lemma div_opp_self (x : float) :
  finite x -> (x =? 0) = false -> (0 - x) / (0 + x) = -1.
Proof.
  unfold finite. intros Hf Hz. apply Prim2SF_inj. to_spec.
  change (Prim2SF (-1)) with (S754_finite true 4503599627370496 (-52)).
  destruct (Prim2SF x) as [s|s| |s m e]; try discriminate.
  unfold SF64sub, SF64add, SF64div, SFsub, SFadd, SFdiv.
  rewrite div_core_self.
  destruct s; reflexivity.
Qed.

Lemma zero_add_nonzero (x : float) :
  (x =? 0) = false -> (0 + x =? 0) = false.
Proof.
  intros Hx. to_spec.
  destruct (Prim2SF x) as [s|s| |s m e]; try destruct s;
    try reflexivity; discriminate.
Qed.
End F64.

(** ** Rounding to nearest in binary64

    The specification of binary64 rounds a truncated mantissa with
    [binary_round_aux].  This section gives that function a meaning over the
    reals and derives the two facts used below: rounding never crosses a
    representable number, and a quotient of magnitude at most one stays at
    most one. *)

Module Round.
Import Binary64.
Local Open Scope Z_scope.

Lemma pow2_pos (e : Z) : (0 < pow2 e)%R.
Proof. apply powerRZ_lt. lra. Qed.

Lemma pow2_add (a b : Z) : pow2 (a + b) = (pow2 a * pow2 b)%R.
Proof. apply powerRZ_add. lra. Qed.

Lemma pow2_succ (e : Z) : pow2 (e + 1) = (2 * pow2 e)%R.
Proof. rewrite pow2_add. unfold pow2 at 2. simpl. lra. Qed.

Lemma pow2_IZR (k : Z) : 0 <= k -> IZR (2 ^ k) = pow2 k.
Proof.
  intros Hk. pattern k. apply natlike_ind; [reflexivity| |exact Hk].
  intros x Hx IH. rewrite Z.pow_succ_r by exact Hx.
  rewrite mult_IZR, IH. unfold Z.succ. rewrite pow2_succ. reflexivity.
Qed.

Lemma pow2_ge_1 (k : Z) : 0 <= k -> (1 <= pow2 k)%R.
Proof.
  intros Hk. rewrite <- pow2_IZR by exact Hk. apply IZR_le.
  pose proof (Z.pow_pos_nonneg 2 k). lia.
Qed.

Lemma pow2_le (a b : Z) : a <= b -> (pow2 a <= pow2 b)%R.
Proof.
  intros H. replace b with (a + (b - a)) by lia. rewrite pow2_add.
  pose proof (pow2_ge_1 (b - a) ltac:(lia)). pose proof (pow2_pos a). nra.
Qed.

Lemma digits2_pos_spec (m : positive) :
  2 ^ (Zpos (digits2_pos m) - 1) <= Zpos m < 2 ^ Zpos (digits2_pos m).
Proof.
  induction m as [p IH|p IH|]; simpl digits2_pos.
  - rewrite Pos2Z.inj_succ.
    replace (Z.succ (Z.pos (digits2_pos p)) - 1)
      with (Z.succ (Z.pos (digits2_pos p) - 1)) by lia.
    rewrite !Z.pow_succ_r by lia. lia.
  - rewrite Pos2Z.inj_succ.
    replace (Z.succ (Z.pos (digits2_pos p)) - 1)
      with (Z.succ (Z.pos (digits2_pos p) - 1)) by lia.
    rewrite !Z.pow_succ_r by lia. lia.
  - simpl. lia.
Qed.

Lemma fexp_eq (x : Z) : fexp prec emax x = Z.max (x - 53) (-1074).
Proof. reflexivity. Qed.

Lemma canonical_inv (m : positive) (e : Z) :
  canonical m e ->
  -1074 <= e <= 971 /\ Zpos m < 2 ^ 53 /\ (-1074 < e -> 2 ^ 52 <= Zpos m).
Proof.
  unfold canonical, SpecFloat.bounded, canonical_mantissa. rewrite fexp_eq.
  intros H. apply andb_prop in H. destruct H as [H1 H2].
  apply Z.eqb_eq in H1. apply Z.leb_le in H2. change (emax - prec) with 971 in H2.
  pose proof (digits2_pos_spec m) as [Hlo Hhi].
  set (d := Zpos (digits2_pos m)) in *.
  assert (Hd : d <= 53) by lia.
  split; [lia|split].
  - apply Z.lt_le_trans with (1 := Hhi). apply Z.pow_le_mono_r; lia.
  - intros He. assert (d = 53) by lia. replace 52 with (d - 1) by lia. exact Hlo.
Qed.

Lemma F2R_lt_pow2 (m : positive) (k e : Z) :
  0 <= k -> Zpos m < 2 ^ k -> (F2R (Zpos m) e < pow2 (k + e))%R.
Proof.
  intros Hk H. unfold F2R. rewrite pow2_add, <- (pow2_IZR k) by exact Hk.
  apply Rmult_lt_compat_r; [apply pow2_pos|]. apply IZR_lt. exact H.
Qed.

Lemma F2R_ge_pow2 (m k e : Z) :
  0 <= k -> 2 ^ k <= m -> (pow2 (k + e) <= F2R m e)%R.
Proof.
  intros Hk H. unfold F2R. rewrite pow2_add, <- (pow2_IZR k) by exact Hk.
  apply Rmult_le_compat_r; [apply Rlt_le, pow2_pos|]. apply IZR_le. exact H.
Qed.

(** Comparison of canonical positive floats agrees with the comparison
    of their values. *)
Lemma SFleb_canonical (m1 m2 : positive) (e1 e2 : Z) :
  canonical m1 e1 -> canonical m2 e2 ->
  (F2R (Zpos m1) e1 <= F2R (Zpos m2) e2)%R ->
  SFleb (S754_finite false m1 e1) (S754_finite false m2 e2) = true.
Proof.
  intros C1 C2 H. apply canonical_inv in C1, C2.
  destruct C1 as (He1 & Hm1 & Hn1), C2 as (He2 & Hm2 & Hn2).
  unfold SFleb, SFcompare.
  destruct (Z.compare_spec e1 e2) as [E|E|E].
  - subst e2. unfold F2R in H.
    assert (IZR (Zpos m1) <= IZR (Zpos m2))%R.
    { pose proof (pow2_pos e1). nra. }
    apply le_IZR in H0.
    rewrite Pos.compare_cont_spec. unfold Pos.switch_Eq.
    destruct (Pos.compare_spec m1 m2); try reflexivity; lia.
  - reflexivity.
  - exfalso.
    pose proof (F2R_lt_pow2 m2 53 e2 ltac:(lia) Hm2) as Hup.
    pose proof (F2R_ge_pow2 (Zpos m1) 52 e1 ltac:(lia) (Hn1 ltac:(lia))) as Hlo.
    pose proof (pow2_le (53 + e2) (52 + e1) ltac:(lia)). lra.
Qed.

Lemma SFltb_canonical (m1 m2 : positive) (e1 e2 : Z) :
  canonical m1 e1 -> canonical m2 e2 ->
  (F2R (Zpos m1) e1 < F2R (Zpos m2) e2)%R ->
  SFltb (S754_finite false m1 e1) (S754_finite false m2 e2) = true.
Proof.
  intros C1 C2 H. apply canonical_inv in C1, C2.
  destruct C1 as (He1 & Hm1 & Hn1), C2 as (He2 & Hm2 & Hn2).
  unfold SFltb, SFcompare.
  destruct (Z.compare_spec e1 e2) as [E|E|E].
  - subst e2. unfold F2R in H.
    assert (IZR (Zpos m1) < IZR (Zpos m2))%R.
    { pose proof (pow2_pos e1). nra. }
    apply lt_IZR in H0.
    rewrite Pos.compare_cont_spec. unfold Pos.switch_Eq.
    destruct (Pos.compare_spec m1 m2); try reflexivity; lia.
  - reflexivity.
  - exfalso.
    pose proof (F2R_lt_pow2 m2 53 e2 ltac:(lia) Hm2) as Hup.
    pose proof (F2R_ge_pow2 (Zpos m1) 52 e1 ltac:(lia) (Hn1 ltac:(lia))) as Hlo.
    pose proof (pow2_le (53 + e2) (52 + e1) ltac:(lia)). lra.
Qed.

(** And conversely. *)
Lemma SFleb_canonical_inv (m1 m2 : positive) (e1 e2 : Z) :
  canonical m1 e1 -> canonical m2 e2 ->
  SFleb (S754_finite false m1 e1) (S754_finite false m2 e2) = true ->
  (F2R (Zpos m1) e1 <= F2R (Zpos m2) e2)%R.
Proof.
  intros C1 C2 H.
  destruct (Rle_or_lt (F2R (Zpos m1) e1) (F2R (Zpos m2) e2)) as [Hle|Hlt]; [exact Hle|].
  exfalso. pose proof (SFltb_canonical m2 m1 e2 e1 C2 C1 Hlt) as Hc.
  unfold SFleb in H. unfold SFltb in Hc. simpl in H, Hc.
  rewrite Z.compare_antisym in Hc.
  destruct (e1 ?= e2); simpl in *; try discriminate.
  rewrite Pos.compare_cont_spec in H, Hc. unfold Pos.switch_Eq in H, Hc.
  rewrite Pos.compare_antisym in Hc.
  destruct (m1 ?= m2)%positive; simpl in *; discriminate.
Qed.

Lemma inb_of_loc (m e : Z) (l : location) (v : R) :
  0 <= m -> inbetween m e l v -> inb (shr_record_of_loc m l) e v.
Proof.
  intros Hm H. split; destruct l as [|[]]; simpl; assumption.
Qed.

Lemma shr_1_inb (mrs : shr_record) (e : Z) (v : R) :
  inb mrs e v -> inb (shr_1 mrs) (e + 1) v /\ shr_m (shr_1 mrs) = shr_m mrs / 2.
Proof.
  destruct mrs as [m r s]. unfold inb. cbn [shr_m]. intros [Hm H].
  assert (Hdiv : forall q b, 0 <= b < 2 -> (2 * q + b) / 2 = q).
  { intros q b Hb. symmetry. apply (Z.div_unique _ 2 q b); lia. }
  pose proof (pow2_pos e) as HX.
  assert (Hcases : m = 0 \/ m = 1 \/ (exists p, m = Zpos p~0) \/ (exists p, m = Zpos p~1)).
  { destruct m as [|[p|p|]|p]; try lia; eauto. }
  destruct Hcases as [->|[->|[[p ->]|[p ->]]]].
  - split; [split; [destruct r, s; simpl; lia|]|reflexivity].
    destruct r, s; cbn [shr_1 shr_m loc_of_shr_record inbetween orb] in *;
      unfold F2R in *; rewrite ?pow2_succ; rewrite ?plus_IZR in *; lra.
  - split; [split; [destruct r, s; simpl; lia|]|reflexivity].
    destruct r, s; cbn [shr_1 shr_m loc_of_shr_record inbetween orb] in *;
      unfold F2R in *; rewrite ?pow2_succ; rewrite ?plus_IZR in *; lra.
  - split; [split; [cbn [shr_1 shr_m]; lia|]|].
    + rewrite Pos2Z.inj_xO in H.
      destruct r, s; cbn [shr_1 shr_m loc_of_shr_record inbetween orb] in *;
        unfold F2R in *; rewrite ?pow2_succ; rewrite ?plus_IZR, ?mult_IZR in *;
        set (P := IZR (Z.pos p)) in *; nra.
    + cbn [shr_1 shr_m]. rewrite Pos2Z.inj_xO.
      replace (2 * Z.pos p) with (2 * Z.pos p + 0) by lia.
      rewrite (Hdiv (Z.pos p) 0); lia.
  - split; [split; [cbn [shr_1 shr_m]; lia|]|].
    + rewrite Pos2Z.inj_xI in H.
      destruct r, s; cbn [shr_1 shr_m loc_of_shr_record inbetween orb] in *;
        unfold F2R in *; rewrite ?pow2_succ; rewrite ?plus_IZR, ?mult_IZR in *;
        set (P := IZR (Z.pos p)) in *; nra.
    + cbn [shr_1 shr_m]. rewrite Pos2Z.inj_xI. rewrite (Hdiv (Z.pos p) 1); lia.
Qed.

Lemma iter_shr_1_inb (p : positive) :
  forall (mrs : shr_record) (e : Z) (v : R),
    inb mrs e v ->
    inb (SpecFloat.iter_pos shr_1 p mrs) (e + Zpos p) v
    /\ shr_m (SpecFloat.iter_pos shr_1 p mrs) = shr_m mrs / 2 ^ Zpos p.
Proof.
  induction p as [p IH|p IH|]; intros mrs e v H; cbn [SpecFloat.iter_pos].
  - destruct (shr_1_inb mrs e v H) as [H1 D1].
    destruct (IH _ _ _ H1) as [H2 D2].
    destruct (IH _ _ _ H2) as [H3 D3].
    split.
    + replace (e + Z.pos p~1) with (e + 1 + Z.pos p + Z.pos p) by lia. exact H3.
    + rewrite D3, D2, D1. rewrite !Z.div_div by lia. f_equal.
      replace (Z.pos p~1) with (Z.pos p + Z.pos p + 1) by lia.
      rewrite !Z.pow_add_r by lia. change (2 ^ 1) with 2. ring.
  - destruct (IH _ _ _ H) as [H2 D2].
    destruct (IH _ _ _ H2) as [H3 D3].
    split.
    + replace (e + Z.pos p~0) with (e + Z.pos p + Z.pos p) by lia. exact H3.
    + rewrite D3, D2. rewrite !Z.div_div by lia. f_equal.
      replace (Z.pos p~0) with (Z.pos p + Z.pos p) by lia.
      rewrite !Z.pow_add_r by lia. ring.
  - destruct (shr_1_inb mrs e v H) as [H1 D1]. split; [exact H1|].
    rewrite D1. reflexivity.
Qed.

Lemma Zdigits2_spec (m : Z) :
  0 < m -> 2 ^ (Zdigits2 m - 1) <= m < 2 ^ Zdigits2 m.
Proof.
  destruct m as [|p|p]; try lia. intros _. apply digits2_pos_spec.
Qed.

Lemma Zdigits2_nonneg (m : Z) : 0 <= Zdigits2 m.
Proof. destruct m; simpl; lia. Qed.

Lemma shr_fexp_spec (m e : Z) (l : location) (v : R) :
  0 <= m -> inbetween m e l v ->
  e <= fexp prec emax (Zdigits2 m + e) ->
  inb (fst (shr_fexp prec emax m e l)) (fexp prec emax (Zdigits2 m + e)) v
  /\ snd (shr_fexp prec emax m e l) = fexp prec emax (Zdigits2 m + e)
  /\ shr_m (fst (shr_fexp prec emax m e l))
     = m / 2 ^ (fexp prec emax (Zdigits2 m + e) - e).
Proof.
  intros Hm Hv P0. unfold shr_fexp, shr.
  pose proof (inb_of_loc m e l v Hm Hv) as H0.
  assert (Hrec : shr_m (shr_record_of_loc m l) = m) by (destruct l as [|[]]; reflexivity).
  set (e1 := fexp prec emax (Zdigits2 m + e)) in *.
  destruct (e1 - e) as [|p|p] eqn:En; try lia.
  - cbn [fst snd]. replace e1 with e by lia.
    rewrite Hrec, Z.div_1_r. auto.
  - cbn [fst snd]. destruct (iter_shr_1_inb p _ e v H0) as [H1 D1].
    replace e1 with (e + Z.pos p) by lia. rewrite D1, Hrec. auto.
Qed.

Lemma round_nearest_even_range (m : Z) (l : location) :
  round_nearest_even m l = m \/ round_nearest_even m l = m + 1.
Proof.
  destruct l as [|[]]; simpl; auto. destruct (Z.even m); auto.
Qed.

Lemma binary_round_aux_spec (s : bool) (m e : Z) (l : location) (v : R) :
  0 <= m -> inbetween m e l v ->
  e <= fexp prec emax (Zdigits2 m + e) ->
  exists m1 l1,
    let e1 := fexp prec emax (Zdigits2 m + e) in
    0 <= m1 < 2 ^ 53 /\ (-1074 < e1 -> 2 ^ 52 <= m1)
    /\ inbetween m1 e1 l1 v
    /\ binary_round_aux prec emax s m e l
       = encode s (round_nearest_even m1 l1) e1.
Proof.
  intros Hm Hv P0.
  destruct (shr_fexp_spec m e l v Hm Hv P0) as ([Hm1 Hin] & He1 & Hdiv).
  unfold binary_round_aux.
  destruct (shr_fexp prec emax m e l) as [mrs' e'].
  cbn [fst snd] in *. subst e'.
  set (e1 := fexp prec emax (Zdigits2 m + e)) in *.
  set (m1 := shr_m mrs') in *. set (l1 := loc_of_shr_record mrs') in *.
  assert (He1 : -1074 <= e1) by (unfold e1; rewrite fexp_eq; lia).
  assert (Hpow : 0 < 2 ^ (e1 - e)) by (apply Z.pow_pos_nonneg; lia).
  assert (Hup : m1 < 2 ^ 53).
  { rewrite Hdiv. apply Z.div_lt_upper_bound; [exact Hpow|].
    destruct (Z.eq_dec m 0) as [->|Hnz]; [lia|].
    destruct (Zdigits2_spec m ltac:(lia)) as [_ Hd].
    apply Z.lt_le_trans with (1 := Hd).
    rewrite <- Z.pow_add_r by lia. apply Z.pow_le_mono_r; [lia|].
    unfold e1. rewrite fexp_eq. lia. }
  assert (Hlo : -1074 < e1 -> 2 ^ 52 <= m1).
  { intros Hn. rewrite Hdiv. apply Z.div_le_lower_bound; [exact Hpow|].
    assert (Hd53 : e1 = Zdigits2 m + e - 53) by (unfold e1 in *; rewrite fexp_eq in *; lia).
    destruct (Z.eq_dec m 0) as [->|Hnz].
    { simpl in Hd53. lia. }
    destruct (Zdigits2_spec m ltac:(lia)) as [Hd _].
    rewrite <- Z.pow_add_r by lia.
    apply Z.le_trans with (2 := Hd). apply Z.pow_le_mono_r; lia. }
  exists m1, l1. split; [lia|]. split; [exact Hlo|]. split; [exact Hin|].
  set (m2 := round_nearest_even m1 l1).
  assert (Hm2 : m2 = m1 \/ m2 = m1 + 1) by apply round_nearest_even_range.
  assert (Hcases : m2 = 0 \/ (0 < m2 < 2 ^ 53) \/ m2 = 2 ^ 53) by lia.
  destruct Hcases as [E|[E|E]].
  - rewrite E. unfold shr_fexp, shr. cbn [Zdigits2 Z.add shr_record_of_loc].
    destruct (fexp prec emax e1 - e1) as [|p|p] eqn:En; cbn [shr_m]; try reflexivity.
    rewrite fexp_eq in En. lia.
  - unfold shr_fexp, shr.
    pose proof (Zdigits2_spec m2 ltac:(lia)) as [Hd _].
    assert (Hd53 : Zdigits2 m2 <= 53).
    { destruct (Z_le_gt_dec (Zdigits2 m2) 53) as [H|H]; [exact H|].
      exfalso. assert (2 ^ 53 <= 2 ^ (Zdigits2 m2 - 1)) by (apply Z.pow_le_mono_r; lia). lia. }
    destruct (fexp prec emax (Zdigits2 m2 + e1) - e1) as [|p|p] eqn:En;
      [| rewrite fexp_eq in En; lia|].
    + cbn [shr_record_of_loc shr_m]. unfold encode.
      destruct m2 as [|p2|p2]; try lia.
      destruct (Z.ltb_spec (Z.pos p2) (2 ^ 53)); [|lia].
      change (emax - prec) with 971. reflexivity.
    + cbn [shr_record_of_loc shr_m]. unfold encode.
      destruct m2 as [|p2|p2]; try lia.
      destruct (Z.ltb_spec (Z.pos p2) (2 ^ 53)); [|lia].
      change (emax - prec) with 971. reflexivity.
  - rewrite E. unfold shr_fexp, shr.
    change (Zdigits2 (2 ^ 53)) with 54.
    assert (En : fexp prec emax (54 + e1) - e1 = 1) by (rewrite fexp_eq; lia).
    rewrite En. cbn. change (emax - prec) with 971.
    replace (e1 + 1 <=? 971) with (e1 + 1 <=? 971) by reflexivity.
    reflexivity.
Qed.

Lemma pow2_lt_inv (a b : Z) : (pow2 a < pow2 b)%R -> a < b.
Proof.
  intros H. destruct (Z_lt_ge_dec a b) as [Hlt|Hge]; [exact Hlt|].
  pose proof (pow2_le b a ltac:(lia)). lra.
Qed.

Lemma F2R_shift (m e e' : Z) : e' <= e -> F2R m e = F2R (m * 2 ^ (e - e')) e'.
Proof.
  intros H. unfold F2R. rewrite mult_IZR, pow2_IZR by lia.
  replace e with ((e - e') + e') at 1 by lia. rewrite pow2_add. ring.
Qed.

Lemma inbetween_lower (m e : Z) (l : location) (v : R) :
  inbetween m e l v -> (F2R m e <= v)%R.
Proof.
  pose proof (pow2_pos e). unfold F2R.
  destruct l as [|[]]; simpl; unfold F2R; intros; nra.
Qed.

Lemma inbetween_upper (m e : Z) (l : location) (v : R) :
  inbetween m e l v -> l <> loc_Exact -> (v < F2R (m + 1) e)%R.
Proof.
  pose proof (pow2_pos e). unfold F2R. rewrite plus_IZR.
  destruct l as [|[]]; simpl; unfold F2R; rewrite ?plus_IZR; intros; nra.
Qed.

Lemma round_up_strict (m : Z) (l : location) (e : Z) (v : R) :
  inbetween m e l v -> round_nearest_even m l <> m -> (F2R m e < v)%R.
Proof.
  pose proof (pow2_pos e). unfold F2R.
  destruct l as [|[]]; simpl; unfold F2R; intros; try nra; try congruence.
Qed.

Lemma F2R_lt_inv (m1 m2 e : Z) : (F2R m1 e < F2R m2 e)%R -> m1 < m2.
Proof.
  unfold F2R. intros H. pose proof (pow2_pos e). apply lt_IZR. nra.
Qed.

Lemma F2R_le (m1 m2 e : Z) : m1 <= m2 -> (F2R m1 e <= F2R m2 e)%R.
Proof.
  unfold F2R. intros H. pose proof (pow2_pos e). apply IZR_le in H. nra.
Qed.

(** The value of an encoded mantissa. *)
Lemma encode_cases (s : bool) (m2 e1 : Z) :
  0 <= m2 <= 2 ^ 53 -> (-1074 < e1 -> 2 ^ 52 <= m2) ->
  (m2 = 0 /\ encode s m2 e1 = S754_zero s)
  \/ (exists m3 e3, encode s m2 e1 = S754_finite s m3 e3
                    /\ F2R (Zpos m3) e3 = F2R m2 e1)
  \/ (encode s m2 e1 = S754_infinity s /\ (pow2 1024 <= F2R m2 e1)%R).
Proof.
  intros Hm Hn. unfold encode. destruct m2 as [|p|p]; try lia.
  - left. auto.
  - right. destruct (Z.ltb_spec (Z.pos p) (2 ^ 53)) as [Hlt|Hge].
    + destruct (Z.leb_spec e1 971) as [He|He].
      * left. exists p, e1. auto.
      * right. split; [reflexivity|].
        pose proof (F2R_ge_pow2 (Z.pos p) 52 e1 ltac:(lia) (Hn ltac:(lia))).
        pose proof (pow2_le 1024 (52 + e1) ltac:(lia)). lra.
    + assert (E : Z.pos p = 2 ^ 53) by lia.
      destruct (Z.leb_spec (e1 + 1) 971) as [He|He].
      * left. exists 4503599627370496%positive, (e1 + 1). split; [reflexivity|].
        rewrite E. change (Z.pos 4503599627370496) with (2 ^ 52).
        rewrite (F2R_shift (2 ^ 52) (e1 + 1) e1) by lia.
        replace (e1 + 1 - e1) with 1 by lia. reflexivity.
      * right. split; [reflexivity|]. rewrite E.
        pose proof (F2R_ge_pow2 (2 ^ 53) 53 e1 ltac:(lia) ltac:(lia)).
        pose proof (pow2_le 1024 (53 + e1) ltac:(lia)). lra.
Qed.

Section Bounds.
Variables (s : bool) (m e : Z) (l : location) (v : R).
Hypothesis Hm : 0 <= m.
Hypothesis Hv : inbetween m e l v.
Hypothesis P0 : e <= fexp prec emax (Zdigits2 m + e).

(** Rounding never goes above a float that is above the exact value. *)
Lemma round_upper (mc : positive) (ec : Z) :
  canonical mc ec -> (v <= F2R (Zpos mc) ec)%R ->
  binary_round_aux prec emax s m e l = S754_zero s
  \/ exists m3 e3,
      binary_round_aux prec emax s m e l = S754_finite s m3 e3
      /\ (F2R (Zpos m3) e3 <= F2R (Zpos mc) ec)%R.
Proof.
  intros Hc Hle.
  destruct (binary_round_aux_spec s m e l v Hm Hv P0) as (m1 & l1 & Hr & Hn & Hin & ->).
  set (e1 := fexp prec emax (Zdigits2 m + e)) in *.
  pose proof (canonical_inv mc ec Hc) as (Hec & Hmc & Hnc).
  set (C := F2R (Z.pos mc) ec) in *.
  assert (HC : (C < pow2 (53 + ec))%R) by (apply F2R_lt_pow2; [lia|exact Hmc]).
  assert (He1 : -1074 <= e1) by (unfold e1; rewrite fexp_eq; lia).
  set (m2 := round_nearest_even m1 l1).
  assert (Hm2 : m2 = m1 \/ m2 = m1 + 1) by apply round_nearest_even_range.
  assert (HW : (F2R m2 e1 <= C)%R).
  { destruct (Z.eq_dec m2 m1) as [E|NE].
    - rewrite E. pose proof (inbetween_lower _ _ _ _ Hin). lra.
    - assert (E : m2 = m1 + 1) by lia.
      pose proof (round_up_strict m1 l1 e1 v Hin NE) as Hs.
      assert (Hec1 : e1 <= ec).
      { destruct (Z.eq_dec e1 (-1074)) as [->|Hne]; [lia|].
        pose proof (F2R_ge_pow2 m1 52 e1 ltac:(lia) (Hn ltac:(lia))).
        assert (pow2 (52 + e1) < pow2 (53 + ec))%R by lra.
        apply pow2_lt_inv in H0. lia. }
      unfold C in *. rewrite (F2R_shift (Z.pos mc) ec e1 Hec1) in *.
      rewrite E. apply F2R_le.
      assert (m1 < Z.pos mc * 2 ^ (ec - e1)) by (apply (F2R_lt_inv _ _ e1); lra).
      lia. }
  destruct (encode_cases s m2 e1 ltac:(lia) ltac:(lia)) as [[_ H]|[(m3 & e3 & H & HV)|[H HV]]].
  - left. exact H.
  - right. exists m3, e3. split; [exact H|]. rewrite HV. exact HW.
  - exfalso. pose proof (pow2_le (53 + ec) 1024 ltac:(lia)). lra.
Qed.

(** Rounding never goes below a float that is below the exact value. *)
Lemma round_lower (mc : positive) (ec : Z) :
  canonical mc ec -> (F2R (Zpos mc) ec <= v)%R ->
  binary_round_aux prec emax s m e l = S754_infinity s
  \/ exists m3 e3,
      binary_round_aux prec emax s m e l = S754_finite s m3 e3
      /\ (F2R (Zpos mc) ec <= F2R (Zpos m3) e3)%R.
Proof.
  intros Hc Hle.
  destruct (binary_round_aux_spec s m e l v Hm Hv P0) as (m1 & l1 & Hr & Hn & Hin & ->).
  set (e1 := fexp prec emax (Zdigits2 m + e)) in *.
  pose proof (canonical_inv mc ec Hc) as (Hec & Hmc & Hnc).
  set (C := F2R (Z.pos mc) ec) in *.
  assert (HC : (C < pow2 (53 + ec))%R) by (apply F2R_lt_pow2; [lia|exact Hmc]).
  assert (HC0 : (0 < C)%R).
  { unfold C, F2R. pose proof (pow2_pos ec).
    assert (1 <= IZR (Z.pos mc))%R by (apply IZR_le; lia). nra. }
  assert (He1 : -1074 <= e1) by (unfold e1; rewrite fexp_eq; lia).
  set (m2 := round_nearest_even m1 l1).
  assert (Hm2 : m2 = m1 \/ m2 = m1 + 1) by apply round_nearest_even_range.
  assert (H1 : (C <= F2R m1 e1)%R).
  { destruct (Z_le_gt_dec e1 ec) as [Hec1|Hec1].
    - assert (Hlt : (C < F2R (m1 + 1) e1)%R).
      { destruct l1 as [|c].
        - simpl in Hin. rewrite Hin in Hle.
          apply Rle_lt_trans with (1 := Hle). unfold F2R. rewrite plus_IZR.
          pose proof (pow2_pos e1). nra.
        - pose proof (inbetween_upper _ _ _ _ Hin ltac:(discriminate)). lra. }
      unfold C in *. rewrite (F2R_shift (Z.pos mc) ec e1 Hec1) in *.
      apply F2R_le. apply F2R_lt_inv in Hlt. lia.
    - pose proof (F2R_ge_pow2 m1 52 e1 ltac:(lia) (Hn ltac:(lia))).
      pose proof (pow2_le (53 + ec) (52 + e1) ltac:(lia)). lra. }
  assert (HW : (C <= F2R m2 e1)%R).
  { apply Rle_trans with (1 := H1). apply F2R_le. lia. }
  destruct (encode_cases s m2 e1 ltac:(lia) ltac:(lia)) as [[E H]|[(m3 & e3 & H & HV)|[H HV]]].
  - exfalso. rewrite E in HW. unfold F2R in HW. lra.
  - right. exists m3, e3. split; [exact H|]. rewrite HV. exact HW.
  - left. exact H.
Qed.
End Bounds.

Lemma F2R_pos (m : positive) (e : Z) : (0 < F2R (Zpos m) e)%R.
Proof.
  unfold F2R. pose proof (pow2_pos e).
  assert (1 <= IZR (Z.pos m))%R by (apply IZR_le; lia). nra.
Qed.

(** *** Alignment and [binary_round] *)

Lemma iter_xO_spec (m d : positive) :
  Zpos (Pos.iter xO m d) = Zpos m * 2 ^ Zpos d
  /\ digits2_pos (Pos.iter xO m d) = (digits2_pos m + d)%positive.
Proof.
  induction d as [|d IH] using Pos.peano_ind.
  - simpl. split; [lia|]. rewrite Pos.add_1_r. reflexivity.
  - rewrite Pos.iter_succ. destruct IH as [IH1 IH2]. split.
    + rewrite Pos2Z.inj_xO, IH1, Pos2Z.inj_succ, Z.pow_succ_r by lia. ring.
    + simpl. rewrite IH2. lia.
Qed.

Lemma shl_align_spec (m : positive) (e e' : Z) :
  let mz := fst (shl_align m e e') in
  let ez := snd (shl_align m e e') in
  ez = Z.min e e'
  /\ Zpos mz = Zpos m * 2 ^ (e - ez)
  /\ Zpos (digits2_pos mz) = Zpos (digits2_pos m) + (e - ez).
Proof.
  unfold shl_align. destruct (e' - e) as [|p|p] eqn:E; cbn [fst snd].
  - replace (Z.min e e') with e by lia. rewrite Z.sub_diag. simpl. lia.
  - replace (Z.min e e') with e by lia. rewrite Z.sub_diag. simpl. lia.
  - replace (Z.min e e') with e' by lia.
    replace (e - e') with (Zpos p) by lia.
    destruct (iter_xO_spec m p) as [H1 H2]. rewrite H1, H2. lia.
Qed.

Section BinaryRound.
Variables (s : bool) (m : positive) (e : Z).

Lemma binary_round_aligned :
  exists mz ez,
    binary_round prec emax s m e
    = binary_round_aux prec emax s (Zpos mz) ez loc_Exact
    /\ inbetween (Zpos mz) ez loc_Exact (F2R (Zpos m) e)
    /\ ez <= fexp prec emax (Zdigits2 (Zpos mz) + ez).
Proof.
  unfold binary_round.
  pose proof (shl_align_spec m e (fexp prec emax (Zpos (digits2_pos m) + e)))
    as (Hez & Hmz & Hdz).
  destruct (shl_align m e _) as [mz ez]. cbn [fst snd] in *.
  exists mz, ez. split; [reflexivity|]. split.
  - cbn [inbetween]. rewrite Hmz. apply F2R_shift. lia.
  - cbn [Zdigits2]. rewrite Hdz.
    replace (Z.pos (digits2_pos m) + (e - ez) + ez)
      with (Z.pos (digits2_pos m) + e) by lia. lia.
Qed.

Lemma binary_round_upper (mc : positive) (ec : Z) :
  canonical mc ec -> (F2R (Zpos m) e <= F2R (Zpos mc) ec)%R ->
  binary_round prec emax s m e = S754_zero s
  \/ exists m3 e3,
      binary_round prec emax s m e = S754_finite s m3 e3
      /\ (F2R (Zpos m3) e3 <= F2R (Zpos mc) ec)%R.
Proof.
  destruct binary_round_aligned as (mz & ez & -> & Hin & P0).
  apply round_upper; [lia|exact Hin|exact P0].
Qed.

Lemma binary_round_lower (mc : positive) (ec : Z) :
  canonical mc ec -> (F2R (Zpos mc) ec <= F2R (Zpos m) e)%R ->
  binary_round prec emax s m e = S754_infinity s
  \/ exists m3 e3,
      binary_round prec emax s m e = S754_finite s m3 e3
      /\ (F2R (Zpos mc) ec <= F2R (Zpos m3) e3)%R.
Proof.
  destruct binary_round_aligned as (mz & ez & -> & Hin & P0).
  apply round_lower; [lia|exact Hin|exact P0].
Qed.
End BinaryRound.

(** *** Sums and differences of two positive floats *)

Section AddSub.
Variables (ma mb : positive) (ea eb : Z).
Hypothesis Ca : canonical ma ea.
Hypothesis Cb : canonical mb eb.

Let A : R := F2R (Zpos ma) ea.
Let B : R := F2R (Zpos mb) eb.

Lemma aligned_value (m : positive) (e ez : Z) :
  ez <= e -> F2R (Zpos (fst (shl_align m e ez))) ez = F2R (Zpos m) e.
Proof.
  intros H. pose proof (shl_align_spec m e ez) as (Hez & Hmz & _).
  cbn zeta in *. rewrite Hmz. replace (snd (shl_align m e ez)) with ez by lia.
  symmetry. apply F2R_shift. exact H.
Qed.

Lemma SFadd_pos :
  SF64add (S754_finite false ma ea) (S754_finite false mb eb)
  = S754_infinity false
  \/ exists m3 e3,
      SF64add (S754_finite false ma ea) (S754_finite false mb eb)
      = S754_finite false m3 e3
      /\ (A <= F2R (Zpos m3) e3)%R /\ (B <= F2R (Zpos m3) e3)%R.
Proof.
  unfold SF64add, SFadd. cbn [cond_Zopp].
  set (ez := Z.min ea eb).
  pose proof (aligned_value ma ea ez ltac:(lia)) as Va.
  pose proof (aligned_value mb eb ez ltac:(lia)) as Vb.
  set (ma' := fst (shl_align ma ea ez)) in *.
  set (mb' := fst (shl_align mb eb ez)) in *.
  change (Z.pos ma' + Z.pos mb') with (Z.pos (ma' + mb')). cbn [binary_normalize].
  assert (HS : F2R (Z.pos (ma' + mb')) ez = (A + B)%R).
  { unfold A, B. rewrite <- Va, <- Vb. unfold F2R.
    rewrite Pos2Z.inj_add, plus_IZR. ring. }
  assert (HA : (0 < A)%R).
  { unfold A, F2R. pose proof (pow2_pos ea).
    assert (1 <= IZR (Z.pos ma))%R by (apply IZR_le; lia). nra. }
  assert (HB : (0 < B)%R).
  { unfold B, F2R. pose proof (pow2_pos eb).
    assert (1 <= IZR (Z.pos mb))%R by (apply IZR_le; lia). nra. }
  destruct (binary_round_lower false (ma' + mb') ez ma ea Ca ltac:(fold A; lra))
    as [Hi|(m3 & e3 & Hr & H3)].
  - left. exact Hi.
  - right. exists m3, e3. split; [exact Hr|]. split; [exact H3|].
    destruct (binary_round_lower false (ma' + mb') ez mb eb Cb ltac:(fold B; lra))
      as [Hi|(m4 & e4 & Hr' & H4)].
    + rewrite Hr in Hi. discriminate.
    + rewrite Hr in Hr'. injection Hr' as <- <-. exact H4.
Qed.

Lemma SFsub_pos :
  let r := SF64sub (S754_finite false ma ea) (S754_finite false mb eb) in
  (A = B /\ r = S754_zero false)
  \/ ((B < A)%R
      /\ (r = S754_zero false
          \/ exists m3 e3,
              r = S754_finite false m3 e3 /\ (F2R (Zpos m3) e3 <= A)%R))
  \/ ((A < B)%R
      /\ (r = S754_zero true
          \/ exists m3 e3,
              r = S754_finite true m3 e3 /\ (F2R (Zpos m3) e3 <= B)%R)).
Proof.
  unfold SF64sub, SFsub. cbn [cond_Zopp].
  set (ez := Z.min ea eb).
  pose proof (aligned_value ma ea ez ltac:(lia)) as Va.
  pose proof (aligned_value mb eb ez ltac:(lia)) as Vb.
  set (ma' := fst (shl_align ma ea ez)) in *.
  set (mb' := fst (shl_align mb eb ez)) in *.
  pose proof (F2R_pos ma ea) as HA. fold A in HA.
  pose proof (F2R_pos mb eb) as HB. fold B in HB.
  assert (HD : F2R (Z.pos ma' - Z.pos mb') ez = (A - B)%R).
  { unfold A, B. rewrite <- Va, <- Vb. unfold F2R. rewrite minus_IZR. ring. }
  destruct (Z.pos ma' - Z.pos mb') as [|p|p] eqn:ED; cbn [binary_normalize].
  - left. split; [|reflexivity]. unfold F2R in HD. lra.
  - right. left.
    pose proof (F2R_pos p ez) as Hp. split; [lra|].
    destruct (binary_round_upper false p ez ma ea Ca ltac:(fold A; lra))
      as [Hz|(m3 & e3 & Hr & H3)].
    + left. exact Hz.
    + right. exists m3, e3. split; [exact Hr|exact H3].
  - right. right.
    assert (HV : F2R (Z.pos p) ez = (B - A)%R).
    { rewrite <- Pos2Z.opp_pos in HD. unfold F2R in *. rewrite opp_IZR in HD. lra. }
    pose proof (F2R_pos p ez) as Hp. split; [lra|].
    destruct (binary_round_upper true p ez mb eb Cb ltac:(fold B; lra))
      as [Hz|(m3 & e3 & Hr & H3)].
    + left. exact Hz.
    + right. exists m3, e3. split; [exact Hr|exact H3].
Qed.
End AddSub.

(** *** Quotients *)

Lemma new_location_spec (nb k : Z) (q e : Z) (v : R) :
  0 < nb -> 0 <= k < nb ->
  v = ((IZR q + IZR k / IZR nb) * pow2 e)%R ->
  inbetween q e (new_location nb k) v.
Proof.
  intros Hnb Hk ->. pose proof (pow2_pos e) as HX.
  assert (HN : (0 < IZR nb)%R) by (apply IZR_lt; lia).
  set (t := (IZR k / IZR nb)%R).
  assert (Ht : (t * IZR nb = IZR k)%R) by (unfold t; field; lra).
  assert (Ht1 : (t < 1)%R).
  { assert (IZR k < IZR nb)%R by (apply IZR_lt; lia). nra. }
  assert (Hlt : 2 * k < nb -> (2 * IZR k < IZR nb)%R)
    by (intros E; rewrite <- mult_IZR; apply IZR_lt; exact E).
  assert (Hgt : nb < 2 * k -> (IZR nb < 2 * IZR k)%R)
    by (intros E; rewrite <- mult_IZR; apply IZR_lt; exact E).
  unfold new_location, new_location_even, new_location_odd.
  change IntDef.Z.eqb with Z.eqb. change IntDef.Z.compare with Z.compare.
  change IntDef.Z.mul with Z.mul. change IntDef.Z.add with Z.add.
  change IntDef.Z.even with Z.even.
  destruct (Z.even nb) eqn:Ev; cbv beta;
    (destruct (Z.eqb_spec k 0) as [Hk0|Hk0];
     [ assert (H0 : t = 0%R) by (unfold t; rewrite Hk0; field; lra);
       cbn [inbetween]; unfold F2R; rewrite H0; ring
     | assert (Hkp : (0 < IZR k)%R) by (apply IZR_lt; lia);
       assert (Ht0 : (0 < t)%R) by nra ]).
  - destruct (Z.compare_spec (2 * k) nb) as [E|E|E]; cbn [inbetween];
      unfold F2R; rewrite ?plus_IZR.
    + assert (2 * IZR k = IZR nb)%R by (rewrite <- E, mult_IZR; reflexivity). nra.
    + specialize (Hlt E). nra.
    + specialize (Hgt E). nra.
  - assert (Hodd : 2 * k <> nb).
    { intros <-. rewrite Z.even_mul in Ev. discriminate. }
    destruct (Z.compare_spec (2 * k + 1) nb) as [E|E|E]; cbn [inbetween];
      unfold F2R; rewrite ?plus_IZR.
    + specialize (Hlt ltac:(lia)). nra.
    + specialize (Hlt ltac:(lia)). nra.
    + specialize (Hgt ltac:(lia)). nra.
Qed.

Lemma div_core_spec (m1 m2 : positive) (e1 e2 : Z) :
  exists q e' l,
    SFdiv_core_binary prec emax (Zpos m1) e1 (Zpos m2) e2 = (q, e', l)
    /\ 0 <= q
    /\ inbetween q e' l (F2R (Zpos m1) e1 / F2R (Zpos m2) e2)
    /\ e' <= fexp prec emax (Zdigits2 q + e').
Proof.
  unfold SFdiv_core_binary.
  set (d1 := Zdigits2 (Z.pos m1)). set (d2 := Zdigits2 (Z.pos m2)).
  set (e' := Z.min (fexp prec emax (d1 + e1 - (d2 + e2))) (e1 - e2)).
  set (s := e1 - e2 - e').
  assert (Hs : 0 <= s) by (unfold s, e'; lia).
  set (m' := match s with
             | 0 => Z.pos m1
             | Z.pos _ => Z.shiftl (Z.pos m1) s
             | Z.neg _ => 0
             end).
  assert (Hm' : m' = Z.pos m1 * 2 ^ s).
  { unfold m'. destruct s as [|p|p] eqn:Es; try lia.
    rewrite Z.shiftl_mul_pow2 by lia. reflexivity. }
  pose proof (Z_div_mod m' (Z.pos m2) eq_refl) as Hdm.
  destruct (Z.div_eucl m' (Z.pos m2)) as [q r]. destruct Hdm as [Heq Hr].
  assert (Hp : 0 < 2 ^ s) by (apply Z.pow_pos_nonneg; lia).
  assert (Hq : 0 <= q) by nia.
  exists q, e', (new_location (Z.pos m2) r).
  split; [reflexivity|]. split; [exact Hq|]. split.
  - apply new_location_spec; [lia|exact Hr|].
    unfold F2R.
    assert (HM2 : (0 < IZR (Z.pos m2))%R) by (apply IZR_lt; lia).
    pose proof (pow2_pos e2) as HX2. pose proof (pow2_pos e') as HX'.
    assert (He1 : pow2 e1 = (pow2 s * pow2 e' * pow2 e2)%R).
    { rewrite <- !pow2_add. f_equal. unfold s. lia. }
    assert (HI : (IZR (Z.pos m1) * pow2 s = IZR (Z.pos m2) * IZR q + IZR r)%R).
    { rewrite <- (pow2_IZR s Hs), <- !mult_IZR, <- plus_IZR, <- Heq, Hm'. reflexivity. }
    rewrite He1. field_simplify_eq; [|lra].
    replace (IZR (Z.pos m1) * pow2 s * pow2 e' * pow2 e2)%R
      with ((IZR (Z.pos m1) * pow2 s) * pow2 e' * pow2 e2)%R by ring.
    rewrite HI. ring.
  - rewrite !fexp_eq. destruct (Z_le_gt_dec e' (-1074)) as [Hlow|Hhigh]; [lia|].
    assert (HX : e' <= d1 + e1 - (d2 + e2) - 53).
    { unfold e' in *. rewrite fexp_eq in *. lia. }
    set (k := d1 - 1 + s - d2).
    assert (Hk : 52 <= k) by (unfold k, s; lia).
    destruct (digits2_pos_spec m1) as [H1 _]. destruct (digits2_pos_spec m2) as [_ H2].
    fold (Zdigits2 (Z.pos m1)) in H1. fold (Zdigits2 (Z.pos m2)) in H2.
    fold d1 in H1. fold d2 in H2.
    assert (Hd1 : 0 < d1) by (unfold d1; simpl; lia).
    assert (Hd2 : 0 < d2) by (unfold d2; simpl; lia).
    assert (Hlow : 2 ^ k * 2 ^ d2 <= m').
    { rewrite Hm'. rewrite <- Z.pow_add_r by lia.
      replace (k + d2) with ((d1 - 1) + s) by (unfold k; lia).
      rewrite Z.pow_add_r by lia. nia. }
    assert (Hpk : 0 < 2 ^ k) by (apply Z.pow_pos_nonneg; lia).
    assert (Hqk : 2 ^ k <= q).
    { assert (2 ^ k * 2 ^ d2 < (q + 1) * 2 ^ d2) by nia.
      assert (0 < 2 ^ d2) by (apply Z.pow_pos_nonneg; lia). nia. }
    destruct (Zdigits2_spec q ltac:(lia)) as [_ Hdq].
    assert (k < Zdigits2 q).
    { apply (Z.pow_lt_mono_r_iff 2); [lia|apply Zdigits2_nonneg|lia]. }
    unfold k, s in *. lia.
Qed.

Lemma canonical_one : canonical 4503599627370496 (-52).
Proof. reflexivity. Qed.

Lemma F2R_one : F2R (Zpos 4503599627370496) (-52) = 1%R.
Proof.
  change (Z.pos 4503599627370496) with (2 ^ 52). unfold F2R.
  rewrite pow2_IZR by lia. rewrite <- pow2_add. reflexivity.
Qed.

(** A quotient of magnitude at most one is rounded to a float of magnitude
    at most one. *)
Lemma SFdiv_le_one (sx : bool) (mx my : positive) (ex ey : Z) :
  (F2R (Zpos mx) ex <= F2R (Zpos my) ey)%R ->
  SF64div (S754_finite sx mx ex) (S754_finite false my ey) = S754_zero sx
  \/ exists m e,
      SF64div (S754_finite sx mx ex) (S754_finite false my ey)
      = S754_finite sx m e
      /\ (F2R (Zpos m) e <= 1)%R.
Proof.
  intros Hle. unfold SF64div, SFdiv.
  destruct (div_core_spec mx my ex ey) as (q & e' & l & -> & Hq & Hin & P0).
  rewrite xorb_false_r.
  assert (Hv : (F2R (Z.pos mx) ex / F2R (Z.pos my) ey <= F2R (Zpos 4503599627370496) (-52))%R).
  { rewrite F2R_one. pose proof (F2R_pos my ey) as Hy.
    set (X := F2R (Z.pos mx) ex) in *. set (Y := F2R (Z.pos my) ey) in *.
    assert (Hxy : (X / Y * Y = X)%R) by (field; lra).
    nra. }
  destruct (round_upper sx q e' l _ Hq Hin P0 _ _ canonical_one Hv)
    as [Hz|(m & e & Hr & H3)].
  - left. exact Hz.
  - right. exists m, e. split; [exact Hr|]. rewrite F2R_one in H3. exact H3.
Qed.

(** *** Strict bounds, products and sums *)

Section Above.
Variables (s : bool) (m e : Z) (l : location) (v : R).
Hypothesis Hm : 0 <= m.
Hypothesis Hv : inbetween m e l v.
Hypothesis P0 : e <= fexp prec emax (Zdigits2 m + e).

(** A value above the midpoint that follows a float is rounded above that
    float. *)
Lemma round_above (mc : positive) (ec : Z) :
  canonical mc ec -> ((IZR (Zpos mc) + / 2) * pow2 ec < v)%R ->
  binary_round_aux prec emax s m e l = S754_infinity s
  \/ exists m3 e3,
      binary_round_aux prec emax s m e l = S754_finite s m3 e3
      /\ (F2R (Zpos mc) ec < F2R (Zpos m3) e3)%R.
Proof.
  intros Hc Hlt.
  destruct (binary_round_aux_spec s m e l v Hm Hv P0) as (m1 & l1 & Hr & Hn & Hin & ->).
  set (e1 := fexp prec emax (Zdigits2 m + e)) in *.
  pose proof (canonical_inv mc ec Hc) as (Hec & Hmc & Hnc).
  set (C := F2R (Z.pos mc) ec) in *.
  assert (HC : (C < pow2 (53 + ec))%R) by (apply F2R_lt_pow2; [lia|exact Hmc]).
  pose proof (F2R_pos mc ec) as HC0. fold C in HC0.
  assert (He1 : -1074 <= e1) by (unfold e1; rewrite fexp_eq; lia).
  set (m2 := round_nearest_even m1 l1).
  assert (Hm2 : m2 = m1 \/ m2 = m1 + 1) by apply round_nearest_even_range.
  assert (HW : (C < F2R m2 e1)%R).
  { destruct (Z_le_gt_dec e1 ec) as [Hec1|Hec1].
    - set (K := Z.pos mc * 2 ^ (ec - e1)).
      assert (HK : C = F2R K e1) by (apply F2R_shift; exact Hec1).
      assert (Hmid : ((IZR K + / 2) * pow2 e1 < v)%R).
      { apply Rle_lt_trans with (2 := Hlt).
        unfold F2R in HK. fold C in HK. unfold C, F2R in HK.
        pose proof (pow2_le e1 ec Hec1). pose proof (pow2_pos e1). nra. }
      assert (HK1 : K + 1 <= m2).
      { pose proof (pow2_pos e1) as HX.
        destruct l1 as [|[]]; cbn [inbetween] in Hin; unfold m2;
          cbn [round_nearest_even]; unfold F2R in Hin.
        - assert (IZR K < IZR m1)%R by nra. apply lt_IZR in H. lia.
        - assert (IZR K < IZR m1)%R by nra. apply lt_IZR in H.
          destruct (Z.even m1); lia.
        - assert (IZR K < IZR m1)%R by nra. apply lt_IZR in H. lia.
        - rewrite plus_IZR in Hin.
          assert (IZR K < IZR m1 + 1)%R by nra.
          rewrite <- plus_IZR in H. apply lt_IZR in H. lia. }
      rewrite HK. apply Rlt_le_trans with (F2R (K + 1) e1).
      + unfold F2R. rewrite plus_IZR. pose proof (pow2_pos e1). nra.
      + apply F2R_le. exact HK1.
    - pose proof (F2R_ge_pow2 m1 52 e1 ltac:(lia) (Hn ltac:(lia))).
      pose proof (pow2_le (53 + ec) (52 + e1) ltac:(lia)).
      assert (F2R m1 e1 <= F2R m2 e1)%R by (apply F2R_le; lia). lra. }
  destruct (encode_cases s m2 e1 ltac:(lia) ltac:(lia)) as [[E H]|[(m3 & e3 & H & HV)|[H HV]]].
  - exfalso. rewrite E in HW. unfold F2R in HW. lra.
  - right. exists m3, e3. split; [exact H|]. rewrite HV. exact HW.
  - left. exact H.
Qed.
End Above.

Section Mul.
Variables (mx my : positive) (ex ey : Z).
Hypothesis Cx : canonical mx ex.
Hypothesis Cy : canonical my ey.

Lemma mul_aligned :
  inbetween (Zpos (mx * my)) (ex + ey) loc_Exact
            (F2R (Zpos mx) ex * F2R (Zpos my) ey)
  /\ ex + ey <= fexp prec emax (Zdigits2 (Zpos (mx * my)) + (ex + ey)).
Proof.
  split.
  - cbn [inbetween]. unfold F2R. rewrite Pos2Z.inj_mul, mult_IZR, pow2_add. ring.
  - rewrite fexp_eq.
    destruct (canonical_inv _ _ Cx) as (Hex & Hmx & Hnx).
    destruct (canonical_inv _ _ Cy) as (Hey & Hmy & Hny).
    destruct (Z_le_gt_dec (ex + ey) (-1074)) as [Hlow|Hhigh]; [lia|].
    assert (Hprod : 2 ^ 52 <= Z.pos (mx * my)).
    { rewrite Pos2Z.inj_mul.
      destruct (Z_le_gt_dec ex (-1074)) as [H1|H1].
      - specialize (Hny ltac:(lia)).
        apply Z.le_trans with (1 * Z.pos my); [lia|].
        apply Z.mul_le_mono_nonneg_r; lia.
      - specialize (Hnx ltac:(lia)).
        apply Z.le_trans with (Z.pos mx * 1); [lia|].
        apply Z.mul_le_mono_nonneg_l; lia. }
    destruct (Zdigits2_spec (Z.pos (mx * my)) ltac:(lia)) as [_ Hd].
    assert (52 < Zdigits2 (Z.pos (mx * my))).
    { apply (Z.pow_lt_mono_r_iff 2); [lia|apply Zdigits2_nonneg|lia]. }
    lia.
Qed.

Lemma SFmul_lower (mc : positive) (ec : Z) :
  canonical mc ec ->
  (F2R (Zpos mc) ec <= F2R (Zpos mx) ex * F2R (Zpos my) ey)%R ->
  SF64mul (S754_finite false mx ex) (S754_finite false my ey)
  = S754_infinity false
  \/ exists m3 e3,
      SF64mul (S754_finite false mx ex) (S754_finite false my ey)
      = S754_finite false m3 e3
      /\ (F2R (Zpos mc) ec <= F2R (Zpos m3) e3)%R.
Proof.
  intros Hc Hle. unfold SF64mul, SFmul. cbn [xorb].
  destruct mul_aligned as [Hin P0].
  apply (round_lower false _ _ _ _ (Pos2Z.is_nonneg (mx * my)) Hin P0 mc ec Hc Hle).
Qed.

Lemma SFmul_upper (mc : positive) (ec : Z) :
  canonical mc ec ->
  (F2R (Zpos mx) ex * F2R (Zpos my) ey <= F2R (Zpos mc) ec)%R ->
  SF64mul (S754_finite false mx ex) (S754_finite false my ey)
  = S754_zero false
  \/ exists m3 e3,
      SF64mul (S754_finite false mx ex) (S754_finite false my ey)
      = S754_finite false m3 e3
      /\ (F2R (Zpos m3) e3 <= F2R (Zpos mc) ec)%R.
Proof.
  intros Hc Hle. unfold SF64mul, SFmul. cbn [xorb].
  destruct mul_aligned as [Hin P0].
  apply (round_upper false _ _ _ _ (Pos2Z.is_nonneg (mx * my)) Hin P0 mc ec Hc Hle).
Qed.
End Mul.

Lemma SFadd_lower (ma mb : positive) (ea eb : Z) (mc : positive) (ec : Z) :
  canonical mc ec ->
  (F2R (Zpos mc) ec <= F2R (Zpos ma) ea + F2R (Zpos mb) eb)%R ->
  SF64add (S754_finite false ma ea) (S754_finite false mb eb)
  = S754_infinity false
  \/ exists m3 e3,
      SF64add (S754_finite false ma ea) (S754_finite false mb eb)
      = S754_finite false m3 e3
      /\ (F2R (Zpos mc) ec <= F2R (Zpos m3) e3)%R.
Proof.
  intros Hc Hle. unfold SF64add, SFadd. cbn [cond_Zopp].
  set (ez := Z.min ea eb).
  pose proof (aligned_value ma ea ez ltac:(lia)) as Va.
  pose proof (aligned_value mb eb ez ltac:(lia)) as Vb.
  set (ma' := fst (shl_align ma ea ez)) in *.
  set (mb' := fst (shl_align mb eb ez)) in *.
  change (Z.pos ma' + Z.pos mb') with (Z.pos (ma' + mb')). cbn [binary_normalize].
  apply binary_round_lower; [exact Hc|].
  rewrite <- Va, <- Vb in Hle. unfold F2R in *.
  rewrite Pos2Z.inj_add, plus_IZR. lra.
Qed.

Lemma SFltb_canonical_inv (m1 m2 : positive) (e1 e2 : Z) :
  canonical m1 e1 -> canonical m2 e2 ->
  SFltb (S754_finite false m1 e1) (S754_finite false m2 e2) = true ->
  (F2R (Zpos m1) e1 < F2R (Zpos m2) e2)%R.
Proof.
  intros C1 C2 H.
  destruct (Rlt_or_le (F2R (Zpos m1) e1) (F2R (Zpos m2) e2)) as [Hlt|Hle]; [exact Hlt|].
  exfalso. pose proof (SFleb_canonical m2 m1 e2 e1 C2 C1 Hle) as Hc.
  unfold SFleb in Hc. unfold SFltb in H. simpl in H, Hc.
  rewrite Z.compare_antisym in Hc.
  destruct (e1 ?= e2); simpl in *; try discriminate.
  rewrite Pos.compare_cont_spec in H, Hc. unfold Pos.switch_Eq in H, Hc.
  rewrite Pos.compare_antisym in Hc.
  destruct (m1 ?= m2)%positive; simpl in *; discriminate.
Qed.

Lemma canonical_intro (m : positive) (e : Z) :
  -1074 <= e <= 971 -> Zpos m < 2 ^ 53 -> (-1074 < e -> 2 ^ 52 <= Zpos m) ->
  canonical m e.
Proof.
  intros He Hm Hn. unfold canonical, SpecFloat.bounded, canonical_mantissa.
  rewrite fexp_eq. change (emax - prec) with 971.
  destruct (digits2_pos_spec m) as [Hlo Hhi].
  set (d := Zpos (digits2_pos m)) in *.
  assert (Hd0 : 0 < d) by (unfold d; lia).
  assert (Hd : d <= 53).
  { destruct (Z_le_gt_dec d 53) as [H|H]; [exact H|]. exfalso.
    assert (2 ^ 53 <= 2 ^ (d - 1)) by (apply Z.pow_le_mono_r; lia). lia. }
  apply andb_true_intro. split; [|apply Z.leb_le; lia].
  apply Z.eqb_eq.
  destruct (Z_le_gt_dec e (-1074)) as [H|H]; [lia|].
  specialize (Hn ltac:(lia)).
  assert (52 < d).
  { apply (Z.pow_lt_mono_r_iff 2); [lia|lia|lia]. }
  lia.
Qed.

(** Twice a canonical float below the largest binade is a float. *)
Lemma double_canonical (m : positive) (e : Z) :
  canonical m e -> e <= 970 ->
  exists m' e', canonical m' e' /\ F2R (Zpos m') e' = (2 * F2R (Zpos m) e)%R.
Proof.
  intros C He. destruct (canonical_inv m e C) as (Hr & Hm & Hn).
  destruct (Z_lt_ge_dec (Zpos m) (2 ^ 52)) as [Hsub|Hnorm].
  - exists (m~0)%positive, e. split.
    + apply canonical_intro; [lia| |].
      * rewrite Pos2Z.inj_xO. change (2 ^ 53) with (2 * 2 ^ 52). lia.
      * intros H. specialize (Hn H). lia.
    + unfold F2R. rewrite Pos2Z.inj_xO, mult_IZR. ring.
  - exists m, (e + 1). split.
    + apply canonical_intro; [lia|exact Hm|]. intros _. lia.
    + unfold F2R. rewrite pow2_succ. ring.
Qed.

(** *** The normalised difference *)

Lemma SFleb_neg (m1 m2 : positive) (e1 e2 : Z) :
  SFleb (S754_finite true m1 e1) (S754_finite true m2 e2)
  = SFleb (S754_finite false m2 e2) (S754_finite false m1 e1).
Proof.
  unfold SFleb, SFcompare. rewrite (Z.compare_antisym e1 e2).
  destruct (e1 ?= e2); simpl; try reflexivity.
  rewrite !Pos.compare_cont_spec. unfold Pos.switch_Eq.
  rewrite (Pos.compare_antisym m1 m2).
  destruct (m1 ?= m2)%positive; reflexivity.
Qed.

Open Scope float_scope.

Lemma valid_canonical (x : float) (s : bool) (m : positive) (e : Z) :
  Prim2SF x = S754_finite s m e -> canonical m e.
Proof.
  intros H. pose proof (Prim2SF_valid x) as Hv. rewrite H in Hv. exact Hv.
Qed.

(** For finite [a, b >= 0] that are not both zero,
    [-1 <= (a - b) / (a + b) <= 1]. *)
Lemma ratio_range (a b : float) :
  is_finite a = true -> is_finite b = true ->
  (0 <=? a) = true -> (0 <=? b) = true ->
  (a + b =? 0) = false ->
  (-1 <=? (a - b) / (a + b)) = true /\ ((a - b) / (a + b) <=? 1) = true.
Proof.
  intros Fa Fb Na Nb Hnz.
  pose proof (valid_canonical ((a - b) / (a + b))) as Hres.
  rewrite !leb_spec in *. rewrite eqb_spec in Hnz.
  rewrite div_spec, add_spec, sub_spec in *.
  pose proof (valid_canonical a) as Ca. pose proof (valid_canonical b) as Cb.
  change (Prim2SF 0) with (S754_zero false) in *.
  change (Prim2SF 1) with (S754_finite false 4503599627370496 (-52)).
  change (Prim2SF (-1)) with (S754_finite true 4503599627370496 (-52)).
  assert (Ha : (exists s, Prim2SF a = S754_zero s)
               \/ exists m e, Prim2SF a = S754_finite false m e).
  { clear - Fa Na. unfold is_finite, is_nan, is_infinity in Fa.
    rewrite !eqb_spec, abs_spec in Fa.
    destruct (Prim2SF a) as [s|s| |s m e]; try destruct s; try discriminate; eauto. }
  assert (Hb : (exists s, Prim2SF b = S754_zero s)
               \/ exists m e, Prim2SF b = S754_finite false m e).
  { clear - Fb Nb. unfold is_finite, is_nan, is_infinity in Fb.
    rewrite !eqb_spec, abs_spec in Fb.
    destruct (Prim2SF b) as [s|s| |s m e]; try destruct s; try discriminate; eauto. }
  destruct Ha as [[sa Ea]|(ma & ea & Ea)], Hb as [[sb Eb]|(mb & eb & Eb)];
    rewrite Ea, Eb in *.
  - destruct sa, sb; discriminate Hnz.
  - unfold SF64div, SF64sub, SF64add, SFsub, SFadd, SFdiv. cbn [negb].
    rewrite F64.div_core_self. split; reflexivity.
  - unfold SF64div, SF64sub, SF64add, SFsub, SFadd, SFdiv.
    rewrite F64.div_core_self. split; reflexivity.
  - specialize (Ca _ _ _ eq_refl). specialize (Cb _ _ _ eq_refl).
    destruct (SFadd_pos ma mb ea eb Ca Cb) as [Hy|(my & ey & Hy & HyA & HyB)];
      rewrite Hy in *;
      destruct (SFsub_pos ma mb ea eb Ca Cb)
        as [[_ Hx]|[[_ [Hx|(mx & ex & Hx & HxA)]]|[_ [Hx|(mx & ex & Hx & HxB)]]]];
      cbv zeta in Hx; rewrite Hx in *; try (split; reflexivity).
    + destruct (SFdiv_le_one false mx my ex ey ltac:(lra)) as [Hz|(m & e & Hr & H1)].
      * rewrite Hz. split; reflexivity.
      * rewrite Hr in *. specialize (Hres _ _ _ eq_refl). split; [reflexivity|].
        apply SFleb_canonical; [exact Hres|exact canonical_one|].
        rewrite F2R_one. exact H1.
    + destruct (SFdiv_le_one true mx my ex ey ltac:(lra)) as [Hz|(m & e & Hr & H1)].
      * rewrite Hz. split; reflexivity.
      * rewrite Hr in *. specialize (Hres _ _ _ eq_refl). split; [|reflexivity].
        rewrite SFleb_neg.
        apply SFleb_canonical; [exact Hres|exact canonical_one|].
        rewrite F2R_one. exact H1.
Qed.
End Round.

(** ** Signs of sums and products in binary64 *)

Module Sign.
Import Binary64 Round.
Local Open Scope Z_scope.

Lemma iter_pos_invariant {A : Type} (P : A -> Prop) (f : A -> A) :
  (forall a, P a -> P (f a)) ->
  forall p a, P a -> P (SpecFloat.iter_pos f p a).
Proof.
  intros Hf. induction p as [p IH|p IH|]; intros a Ha; simpl; auto.
Qed.

Lemma shr_1_nonneg (mrs : shr_record) :
  0 <= shr_m mrs -> 0 <= shr_m (shr_1 mrs).
Proof.
  destruct mrs as [m r s]. simpl.
  destruct m as [|[p|p|]|[p|p|]]; simpl; lia.
Qed.

Lemma shr_fexp_nonneg (m e : Z) (l : location) :
  0 <= m -> 0 <= shr_m (fst (shr_fexp prec emax m e l)).
Proof.
  intros Hm. unfold shr_fexp, shr.
  assert (H0 : 0 <= shr_m (shr_record_of_loc m l))
    by (destruct l as [|[]]; exact Hm).
  destruct (fexp prec emax (Zdigits2 m + e) - e) as [|p|p]; simpl; trivial.
  apply (iter_pos_invariant (fun r => 0 <= shr_m r)); trivial.
  apply shr_1_nonneg.
Qed.

Lemma round_nearest_even_nonneg (m : Z) (l : location) :
  0 <= m -> 0 <= round_nearest_even m l.
Proof.
  intros Hm. destruct l as [|[]]; simpl; try lia.
  destruct (Z.even m); lia.
Qed.

(** Rounding a non-negative mantissa gives a float of the requested sign,
    never NaN. *)
Lemma binary_round_aux_signed (sg : bool) (m e : Z) (l : location) :
  0 <= m -> signed sg (binary_round_aux prec emax sg m e l).
Proof.
  intros Hm. unfold binary_round_aux.
  pose proof (shr_fexp_nonneg m e l Hm) as H1.
  destruct (shr_fexp prec emax m e l) as [mrs' e']. simpl in H1.
  pose proof (round_nearest_even_nonneg (shr_m mrs') (loc_of_shr_record mrs') H1) as H2.
  pose proof (shr_fexp_nonneg _ e' loc_Exact H2) as H3.
  destruct (shr_fexp prec emax _ e' loc_Exact) as [mrs'' e'']. simpl in H3.
  destruct (shr_m mrs'') as [|p|p]; simpl; try reflexivity; try lia.
  match goal with |- context [if ?c then _ else _] => destruct c end;
    simpl; reflexivity.
Qed.

Lemma binary_round_signed (sg : bool) (m : positive) (e : Z) :
  signed sg (binary_round prec emax sg m e).
Proof.
  unfold binary_round. destruct (shl_align m e _) as [mz ez].
  apply binary_round_aux_signed. lia.
Qed.

Open Scope float_scope.

Lemma is_nan_spec (x : float) :
  is_nan x = match Prim2SF x with S754_nan => true | _ => false end.
Proof.
  unfold is_nan. rewrite eqb_spec.
  destruct (Prim2SF x) as [s|s| |s m e]; try destruct s; try reflexivity.
  all: unfold SFeqb, SFcompare; simpl;
    rewrite ?Z.compare_refl, ?Pos.compare_cont_refl; reflexivity.
Qed.

Lemma nonneg_spec (x : float) :
  (0 <=? x) =
  match Prim2SF x with
  | S754_zero _ | S754_finite false _ _ | S754_infinity false => true
  | _ => false
  end.
Proof.
  rewrite leb_spec. change (Prim2SF 0) with (S754_zero false).
  destruct (Prim2SF x) as [s|s| |s m e]; try destruct s; reflexivity.
Qed.

Lemma mul_nonneg (x y : float) :
  (0 <=? x) = true -> (0 <=? y) = true -> nonneg_or_nan (x * y).
Proof.
  unfold nonneg_or_nan. rewrite !nonneg_spec, is_nan_spec, mul_spec.
  intros Hx Hy.
  destruct (Prim2SF x) as [sx|sx| |sx mx ex], (Prim2SF y) as [sy|sy| |sy my ey];
    try destruct sx; try destruct sy; try discriminate;
    try (left; reflexivity); try (right; reflexivity).
  left. unfold SF64mul, SFmul. cbn [xorb].
  pose proof (binary_round_aux_signed false (Z.pos (mx * my)) (ex + ey) loc_Exact
                ltac:(lia)) as H.
  destruct (binary_round_aux _ _ _ _ _ _) as [s|s| |s m e]; simpl in H;
    try contradiction; subst; reflexivity.
Qed.

Lemma add_nonneg (a q : float) :
  nonneg_or_nan a -> nonneg_or_nan q -> nonneg_or_nan (a + q).
Proof.
  unfold nonneg_or_nan. rewrite !nonneg_spec, !is_nan_spec, add_spec.
  intros Ha Hq.
  destruct (Prim2SF a) as [sx|sx| |sx mx ex], (Prim2SF q) as [sy|sy| |sy my ey];
    try destruct sx; try destruct sy;
    try (destruct Ha; discriminate); try (destruct Hq; discriminate);
    try (left; reflexivity); try (right; reflexivity).
  left. unfold SF64add, SFadd. cbn [cond_Zopp].
  set (ez := Z.min ex ey).
  change (Z.pos (fst (shl_align mx ex ez)) + Z.pos (fst (shl_align my ey ez)))%Z
    with (Z.pos (fst (shl_align mx ex ez) + fst (shl_align my ey ez))).
  cbn [binary_normalize].
  pose proof (binary_round_signed false
                (fst (shl_align mx ex ez) + fst (shl_align my ey ez)) ez) as H.
  destruct (binary_round _ _ _ _ _) as [s|s| |s m e]; simpl in H;
    try contradiction; subst; reflexivity.
Qed.

Lemma finite_nonneg (x : float) :
  is_finite x = true -> nonneg_or_nan x -> (0 <=? x) = true.
Proof.
  rewrite F64.is_finite_spec. unfold nonneg_or_nan. rewrite is_nan_spec.
  intros Hf [H|H]; [exact H|].
  destruct (Prim2SF x); discriminate.
Qed.

(** [1 <= 1 + s] for every [s >= 0]. *)
Lemma one_add_ge (s : float) : (0 <=? s) = true -> (1 <=? 1 + s) = true.
Proof.
  rewrite nonneg_spec. intros Hs.
  pose proof (valid_canonical s) as Cs.
  pose proof (valid_canonical (1 + s)) as Cr.
  rewrite leb_spec, add_spec in *.
  change (Prim2SF 1) with (S754_finite false 4503599627370496 (-52)) in *.
  destruct (Prim2SF s) as [ss|ss| |ss ms es]; try destruct ss; try discriminate;
    try reflexivity.
  specialize (Cs _ _ _ eq_refl).
  destruct (SFadd_pos _ _ _ _ canonical_one Cs) as [Hi|(m3 & e3 & Hr & H1 & _)].
  - rewrite Hi. reflexivity.
  - rewrite Hr in *. apply SFleb_canonical; [exact canonical_one| |exact H1].
    apply (Cr _ _ _ eq_refl).
Qed.

(** Two non-negative finite floats whose sum is zero are both zero. *)
Lemma add_zero_inv (a b : float) :
  is_finite a = true -> is_finite b = true ->
  (0 <=? a) = true -> (0 <=? b) = true ->
  (a + b =? 0) = true -> (a =? 0) = true /\ (b =? 0) = true.
Proof.
  rewrite !F64.is_finite_spec, !nonneg_spec, !F64.zero_spec, add_spec.
  pose proof (valid_canonical a) as Ca. pose proof (valid_canonical b) as Cb.
  intros Fa Fb Na Nb.
  destruct (Prim2SF a) as [sa|sa| |sa ma ea], (Prim2SF b) as [sb|sb| |sb mb eb];
    try destruct sa; try destruct sb; try discriminate; try (split; reflexivity);
    try (intros H; discriminate H).
  specialize (Ca _ _ _ eq_refl). specialize (Cb _ _ _ eq_refl).
  destruct (SFadd_pos ma mb ea eb Ca Cb) as [Hy|(my & ey & Hy & _)];
    rewrite Hy; intros H; discriminate H.
Qed.

(** [x - 1 >= 0] for every [x >= 1]. *)
Lemma sub_one_nonneg (x : float) : (1 <=? x) = true -> (0 <=? x - 1) = true.
Proof.
  pose proof (valid_canonical x) as Cx.
  rewrite nonneg_spec, leb_spec, sub_spec.
  change (Prim2SF 1) with (S754_finite false 4503599627370496 (-52)).
  intros Hx.
  destruct (Prim2SF x) as [sx|sx| |sx mx ex]; try destruct sx; try discriminate;
    try reflexivity.
  specialize (Cx _ _ _ eq_refl).
  pose proof (SFleb_canonical_inv _ _ _ _ canonical_one Cx Hx) as Hle.
  destruct (SFsub_pos mx 4503599627370496 ex (-52) Cx canonical_one)
    as [[_ Hr]|[[_ [Hr|(m3 & e3 & Hr & _)]]|[Hlt _]]];
    cbv zeta in *; try (rewrite Hr; reflexivity).
  exfalso. lra.
Qed.
End Sign.

(** ** The price band in binary64 *)

Module Band.
Import Binary64 Round Sign.
Local Open Scope Z_scope.

Lemma Prim2SF_bps : Prim2SF Np.bps = S754_finite false bps_m (-66).
Proof. reflexivity. Qed.

Lemma canonical_bps : canonical bps_m (-66).
Proof. reflexivity. Qed.

Lemma canonical_two : canonical 4503599627370496 (-51).
Proof. reflexivity. Qed.

Lemma F2R_two : F2R (Zpos 4503599627370496) (-51) = 2%R.
Proof.
  change (Z.pos 4503599627370496) with (2 ^ 52). unfold F2R.
  rewrite pow2_IZR by lia. rewrite <- pow2_add.
  change (52 + -51) with 1. unfold pow2. simpl. lra.
Qed.

Open Scope float_scope.

Lemma pos_spec (x : float) :
  (0 <? x) =
  match Prim2SF x with
  | S754_finite false _ _ | S754_infinity false => true
  | _ => false
  end.
Proof.
  rewrite ltb_spec. change (Prim2SF 0) with (S754_zero false).
  destruct (Prim2SF x) as [s|s| |s m e]; try destruct s; reflexivity.
Qed.

(** Every depth above [1e-4] is converted to a value above [1.0]. *)
Lemma div_bps_gt_one (d : float) :
  (Np.bps <? d) = true -> (1 <? d / Np.bps) = true.
Proof.
  pose proof (valid_canonical d) as Cd.
  pose proof (valid_canonical (d / Np.bps)) as Cr.
  rewrite !ltb_spec, div_spec in *. rewrite Prim2SF_bps in *.
  change (Prim2SF 1) with (S754_finite false 4503599627370496 (-52)).
  intros Hlt.
  destruct (Prim2SF d) as [sd|sd| |sd md ed]; try destruct sd; try discriminate;
    try reflexivity.
  specialize (Cd _ _ _ eq_refl).
  pose proof (SFltb_canonical_inv _ _ _ _ canonical_bps Cd Hlt) as HD.
  destruct (canonical_inv _ _ Cd) as (Hed & Hmd & Hnd).
  assert (He : (-66 <= ed)%Z).
  { destruct (Z_le_gt_dec (-66) ed) as [H|H]; [exact H|]. exfalso.
    pose proof (F2R_lt_pow2 md 53 ed ltac:(lia) Hmd).
    pose proof (F2R_ge_pow2 (Zpos bps_m) 52 (-66) ltac:(lia) ltac:(unfold bps_m; lia)).
    pose proof (pow2_le (53 + ed) (52 + -66) ltac:(lia)). lra. }
  rewrite (F2R_shift (Z.pos md) ed (-66) He) in HD.
  set (K := (Z.pos md * 2 ^ (ed - -66))%Z) in *.
  assert (HK : (Zpos bps_m + 1 <= K)%Z) by (apply F2R_lt_inv in HD; lia).
  unfold SF64div, SFdiv in *.
  destruct (div_core_spec md bps_m ed (-66)) as (q & e' & l & Hcore & Hq & Hin & P0).
  rewrite Hcore in *. cbn [xorb] in *.
  assert (Hmid : ((IZR (Zpos 4503599627370496) + / 2) * pow2 (-52)
                  < F2R (Z.pos md) ed / F2R (Z.pos bps_m) (-66))%R).
  { rewrite (F2R_shift (Z.pos md) ed (-66) He). fold K.
    unfold F2R. pose proof (pow2_pos (-66)) as HX.
    assert (H52 : (pow2 (-52) * IZR (2 ^ 52) = 1)%R).
    { rewrite pow2_IZR by lia. rewrite <- pow2_add. reflexivity. }
    change (2 ^ 52)%Z with 4503599627370496%Z in H52.
    apply IZR_le in HK. rewrite plus_IZR in HK. unfold bps_m in *.
    set (X := pow2 (-66)) in *. set (P := pow2 (-52)) in *.
    set (k := IZR K) in *.
    assert (Hb : (0 < 7378697629483821 * X)%R) by lra.
    apply Rmult_lt_reg_r with (7378697629483821 * X)%R; [exact Hb|].
    replace (k * X / (7378697629483821 * X) * (7378697629483821 * X))%R
      with (k * X)%R by (field; lra).
    assert (P = / 4503599627370496)%R.
    { apply Rmult_eq_reg_r with 4503599627370496%R; [|lra].
      rewrite H52. field. }
    rewrite H. nra. }
  destruct (round_above false q e' l _ Hq Hin P0 _ _ canonical_one Hmid)
    as [Hi|(m3 & e3 & Hr & H3)].
  - rewrite Hi. reflexivity.
  - rewrite Hr in *. apply SFltb_canonical; [exact canonical_one| |exact H3].
    apply (Cr _ _ _ eq_refl).
Qed.

(** [1 - d] has the negative sign for every [d > 1]. *)
Lemma one_sub_signed (d : float) :
  (1 <? d) = true -> signed true (Prim2SF (1 - d)).
Proof.
  pose proof (valid_canonical d) as Cd.
  rewrite ltb_spec, sub_spec.
  change (Prim2SF 1) with (S754_finite false 4503599627370496 (-52)).
  intros Hlt.
  destruct (Prim2SF d) as [sd|sd| |sd md ed]; try destruct sd; try discriminate;
    try reflexivity.
  specialize (Cd _ _ _ eq_refl).
  pose proof (SFltb_canonical_inv _ _ _ _ canonical_one Cd Hlt) as HD.
  destruct (SFsub_pos 4503599627370496 md (-52) ed canonical_one Cd)
    as [[HE _]|[[HL _]|[_ [Hr|(m3 & e3 & Hr & _)]]]]; cbv zeta in *;
    try (exfalso; lra); rewrite Hr; reflexivity.
Qed.

Lemma mul_pos_signed (x y : float) :
  is_finite x = true -> (0 <? x) = true -> signed true (Prim2SF y) ->
  signed true (Prim2SF (x * y)).
Proof.
  rewrite F64.is_finite_spec, pos_spec, mul_spec. intros Fx Px Hy.
  destruct (Prim2SF x) as [sx|sx| |sx mx ex]; try destruct sx; try discriminate.
  destruct (Prim2SF y) as [sy|sy| |sy my ey]; simpl in Hy; try contradiction;
    subst; try reflexivity.
  unfold SF64mul, SFmul. cbn [xorb]. apply binary_round_aux_signed. lia.
Qed.

Lemma signed_le_pos (m p : float) :
  signed true (Prim2SF m) -> (0 <? p) = true -> (m <=? p) = true.
Proof.
  rewrite pos_spec, leb_spec. intros Hm Hp.
  destruct (Prim2SF m) as [sm|sm| |sm mm em]; simpl in Hm; try contradiction;
    subst;
    destruct (Prim2SF p) as [sp|sp| |sp mp ep]; try destruct sp;
    try discriminate; reflexivity.
Qed.

Lemma signed_nonpos (m : float) :
  signed true (Prim2SF m) -> (m <=? 0) = true.
Proof.
  rewrite leb_spec. change (Prim2SF 0) with (S754_zero false). intros Hm.
  destruct (Prim2SF m) as [sm|sm| |sm mm em]; simpl in Hm; try contradiction;
    subst; reflexivity.
Qed.

(** An ask priced at most twice the best ask is inside the band of every
    converted depth above [1.0]. *)
Lemma ask_within (ba p d : float) :
  is_finite ba = true -> (0 <? ba) = true ->
  is_finite p = true -> (0 <? p) = true ->
  (p <=? 2 * ba) = true -> (1 <? d) = true ->
  (p <=? ba * (1 + d)) = true.
Proof.
  pose proof (valid_canonical ba) as Cb. pose proof (valid_canonical p) as Cp.
  pose proof (valid_canonical d) as Cd.
  pose proof (valid_canonical (2 * ba)) as C2.
  pose proof (valid_canonical (ba * (1 + d))) as Cr.
  pose proof (valid_canonical (1 + d)) as Cy.
  rewrite !F64.is_finite_spec, !pos_spec, !leb_spec, ltb_spec.
  rewrite !mul_spec, !add_spec in *.
  change (Prim2SF 1) with (S754_finite false 4503599627370496 (-52)) in *.
  change (Prim2SF 2) with (S754_finite false 4503599627370496 (-51)) in *.
  intros Fb Pb Fp Pp Hp2 Hd.
  destruct (Prim2SF ba) as [sb|sb| |sb mb eb]; try destruct sb; try discriminate.
  destruct (Prim2SF p) as [sp|sp| |sp mp ep]; try destruct sp; try discriminate.
  specialize (Cb _ _ _ eq_refl). specialize (Cp _ _ _ eq_refl).
  destruct (canonical_inv _ _ Cb) as (Heb & Hmb & Hnb).
  destruct (canonical_inv _ _ Cp) as (Hep & Hmp & Hnp).
  (* the price is at most twice the best ask, as reals *)
  assert (HP : (F2R (Zpos mp) ep <= 2 * F2R (Zpos mb) eb)%R).
  { destruct (Z_le_gt_dec eb 970) as [Hle|Hgt].
    - destruct (double_canonical mb eb Cb Hle) as (m' & e' & C' & V').
      destruct (SFmul_upper 4503599627370496 mb (-51) eb canonical_two Cb m' e' C')
        as [Hz|(m3 & e3 & Hr & H3)].
      + rewrite F2R_two, V'. lra.
      + rewrite Hz in Hp2. discriminate Hp2.
      + rewrite Hr in *. specialize (C2 _ _ _ eq_refl).
        pose proof (SFleb_canonical_inv _ _ _ _ Cp C2 Hp2). lra.
    - pose proof (F2R_lt_pow2 mp 53 ep ltac:(lia) Hmp).
      pose proof (F2R_ge_pow2 (Zpos mb) 52 eb ltac:(lia) (Hnb ltac:(lia))).
      pose proof (pow2_le (53 + ep) 1024 ltac:(lia)).
      pose proof (pow2_succ 1023) as Hs; change (1023 + 1)%Z with 1024%Z in Hs.
      pose proof (pow2_le 1023 (52 + eb) ltac:(lia)). lra. }
  destruct (Prim2SF d) as [sd|sd| |sd md ed]; try destruct sd; try discriminate.
  - reflexivity.
  - specialize (Cd _ _ _ eq_refl).
    pose proof (SFltb_canonical_inv _ _ _ _ canonical_one Cd Hd) as HD.
    rewrite F2R_one in HD.
    assert (H2 : (F2R (Zpos 4503599627370496) (-51)
                  <= F2R (Zpos 4503599627370496) (-52) + F2R (Zpos md) ed)%R)
      by (rewrite F2R_two, F2R_one; lra).
    destruct (SFadd_lower 4503599627370496 md (-52) ed 4503599627370496 (-51)
                canonical_two H2)
      as [Hy|(my & ey & Hy & HY)]; rewrite Hy in *.
    + reflexivity.
    + rewrite F2R_two in HY.
      specialize (Cy _ _ _ eq_refl).
      destruct (SFmul_lower mb my eb ey Cb Cy mp ep Cp) as [Hi|(m3 & e3 & Hr & H3)].
      * pose proof (F2R_pos mb eb). nra.
      * rewrite Hi. reflexivity.
      * rewrite Hr in *. apply SFleb_canonical; [exact Cp| |exact H3].
        apply (Cr _ _ _ eq_refl).
Qed.
End Band.

(** ** Laws of the binary64 operations

    Symmetries of [+], [-] and [/], the absorption of NaN, the order [<=],
    and the products and sums that bound the price band. *)

Module Laws.
Import Binary64 Round Sign Band.
Open Scope float_scope.

(** *** Negation commutes with rounding *)

Lemma binary_round_aux_opp (s : bool) (m e : Z) (l : location) :
  binary_round_aux prec emax (negb s) m e l
  = SFopp (binary_round_aux prec emax s m e l).
Proof.
  unfold binary_round_aux.
  destruct (shr_fexp prec emax m e l) as [mrs' e'].
  destruct (shr_fexp prec emax _ e' loc_Exact) as [mrs'' e''].
  destruct (shr_m mrs'') as [|p|p]; try reflexivity.
  destruct (e'' <=? emax - prec)%Z; reflexivity.
Qed.

Lemma binary_round_opp (s : bool) (m : positive) (e : Z) :
  binary_round prec emax (negb s) m e = SFopp (binary_round prec emax s m e).
Proof.
  unfold binary_round. destruct (shl_align m e _) as [mz ez].
  apply binary_round_aux_opp.
Qed.

Lemma binary_normalize_opp (z e : Z) :
  z <> 0%Z ->
  binary_normalize prec emax (- z) e false
  = SFopp (binary_normalize prec emax z e false).
Proof.
  destruct z as [|p|p]; intros Hz; [contradiction| |]; simpl.
  - apply (binary_round_opp false).
  - rewrite (binary_round_opp false). 
    destruct (binary_round prec emax false p e) as [[]|[]| |[] ? ?]; reflexivity.
Qed.

(** *** Symmetries *)

Lemma SFadd_comm (x y : spec_float) : SF64add x y = SF64add y x.
Proof.
  destruct x as [sx|sx| |sx mx ex], y as [sy|sy| |sy my ey];
    try reflexivity; try (destruct sx, sy; reflexivity).
  unfold SF64add, SFadd. change IntDef.Z.min with Z.min.
  change IntDef.Z.add with Z.add. rewrite (Z.min_comm ey ex).
  f_equal. apply Z.add_comm.
Qed.

Lemma SFsub_swap (x y : spec_float) :
  SF64sub y x = SFopp (SF64sub x y)
  \/ (SF64sub x y = S754_zero false /\ SF64sub y x = S754_zero false).
Proof.
  destruct x as [sx|sx| |sx mx ex], y as [sy|sy| |sy my ey];
    try (left; reflexivity);
    try (destruct sx, sy; (left; reflexivity) || (right; split; reflexivity)).
  unfold SF64sub, SFsub. change IntDef.Z.min with Z.min.
  change IntDef.Z.sub with Z.sub. rewrite (Z.min_comm ey ex).
  set (ez := Z.min ex ey).
  set (a := cond_Zopp sx (Zpos (fst (shl_align mx ex ez)))).
  set (b := cond_Zopp sy (Zpos (fst (shl_align my ey ez)))).
  destruct (Z.eq_dec (a - b) 0) as [E|N].
  - right. replace (b - a)%Z with 0%Z by lia. rewrite E. split; reflexivity.
  - left. replace (b - a)%Z with (- (a - b))%Z by lia.
    apply binary_normalize_opp. exact N.
Qed.

Lemma SFdiv_opp (x d : spec_float) :
  SF64div (SFopp x) d = SFopp (SF64div x d).
Proof.
  destruct x as [sx|sx| |sx mx ex], d as [sd|sd| |sd md ed];
    try reflexivity; try (destruct sx, sd; reflexivity).
  unfold SF64div, SFdiv, SFopp.
  destruct (SFdiv_core_binary prec emax (Zpos mx) ex (Zpos md) ed) as [[mz ez] lz].
  replace (xorb (negb sx) sd) with (negb (xorb sx sd)) by (destruct sx, sd; reflexivity).
  apply binary_round_aux_opp.
Qed.

Lemma add_comm (x y : float) : x + y = y + x.
Proof.
  apply Prim2SF_inj. rewrite !add_spec. apply SFadd_comm.
Qed.

Lemma div_opp (x d : float) : (- x) / d = - (x / d).
Proof.
  apply Prim2SF_inj. rewrite opp_spec, !div_spec, opp_spec. apply SFdiv_opp.
Qed.

Lemma sub_swap (x y : float) :
  y - x = - (x - y) \/ (x - y = 0 /\ y - x = 0).
Proof.
  destruct (SFsub_swap (Prim2SF x) (Prim2SF y)) as [H|[H1 H2]].
  - left. apply Prim2SF_inj. rewrite opp_spec, !sub_spec. exact H.
  - right. split; apply Prim2SF_inj; rewrite sub_spec; assumption.
Qed.

(** When [x - y] is [+0.0] the sum [x + y] is not NaN. *)
Lemma SFsub_zero_add (x y : spec_float) :
  SF64sub x y = S754_zero false -> SF64add x y <> S754_nan.
Proof.
  destruct x as [sx|sx| |sx mx ex], y as [sy|sy| |sy my ey];
    try discriminate; try (destruct sx, sy; discriminate).
  intros _. unfold SF64add, SFadd.
  match goal with
  | |- binary_normalize _ _ ?z _ _ <> _ => destruct z as [|p|p]
  end; simpl; try discriminate.
  - pose proof (Sign.binary_round_signed false p (IntDef.Z.min ex ey)) as H.
    intros E. rewrite E in H. exact H.
  - pose proof (Sign.binary_round_signed true p (IntDef.Z.min ex ey)) as H.
    intros E. rewrite E in H. exact H.
Qed.

Lemma balanced_ratio (x y : float) :
  x - y = 0 -> (x + y =? 0) = false -> Binary64.zero (0 / (x + y)).
Proof.
  intros Hs Hz. unfold Binary64.zero.
  apply (f_equal Prim2SF) in Hs. rewrite sub_spec in Hs.
  pose proof (SFsub_zero_add _ _ Hs) as Hn.
  rewrite F64.zero_spec in Hz |- *. rewrite div_spec.
  rewrite add_spec in Hz |- *. 
  destruct (SF64add (Prim2SF x) (Prim2SF y)) as [s|s| |s m e];
    try reflexivity; try discriminate; contradiction.
Qed.

(** *** NaN *)

Lemma nan_absorbs (x y : float) :
  is_nan x = true \/ is_nan y = true ->
  is_nan (x + y) = true /\ is_nan (x - y) = true
  /\ is_nan (x * y) = true /\ is_nan (x / y) = true.
Proof.
  rewrite !Sign.is_nan_spec, add_spec, sub_spec, mul_spec, div_spec.
  destruct (Prim2SF x) as [sx|sx| |sx mx ex], (Prim2SF y) as [sy|sy| |sy my ey];
    intros [H|H]; try discriminate H; repeat split; reflexivity.
Qed.

Lemma nan_nonzero (x : float) : is_nan x = true -> (x =? 0) = false.
Proof.
  rewrite Sign.is_nan_spec, F64.zero_spec.
  destruct (Prim2SF x); try discriminate; reflexivity.
Qed.

(** *** The order *)

Lemma SFleb_trans (x y z : spec_float) :
  SFleb x y = true -> SFleb y z = true -> SFleb x z = true.
Proof.
  unfold SFleb, SFcompare.
  destruct x as [sx|sx| |sx mx ex], y as [sy|sy| |sy my ey],
           z as [sz|sz| |sz mz ez];
    try discriminate; try reflexivity;
    try (destruct sx; discriminate); try (destruct sy; discriminate);
    try (destruct sz; discriminate);
    try (destruct sx, sy; discriminate); try (destruct sy, sz; discriminate);
    try (destruct sx, sz; discriminate);
    try (destruct sx, sy, sz; try discriminate; reflexivity).
  all: destruct sx, sy, sz; try discriminate; try reflexivity.
  all: rewrite !Pos.compare_cont_spec; unfold Pos.switch_Eq;
    change PosDef.Pos.compare with Pos.compare.
  all: destruct (Z.compare_spec ex ey), (Z.compare_spec ey ez),
         (Z.compare_spec ex ez); try discriminate; try reflexivity; try lia.
  all: subst;
    destruct (Pos.compare_spec mx my), (Pos.compare_spec my mz),
      (Pos.compare_spec mx mz); simpl; try discriminate; try reflexivity; try lia.
Qed.

Lemma leb_trans (x y z : float) :
  (x <=? y) = true -> (y <=? z) = true -> (x <=? z) = true.
Proof. rewrite !leb_spec. apply SFleb_trans. Qed.

(** *** The sign of the normalised difference *)

Lemma finite_nonneg_cases (a : float) :
  is_finite a = true -> (0 <=? a) = true ->
  (exists s, Prim2SF a = S754_zero s)
  \/ exists m e, Prim2SF a = S754_finite false m e.
Proof.
  rewrite F64.is_finite_spec, Sign.nonneg_spec.
  destruct (Prim2SF a) as [s|s| |s m e]; try destruct s; try discriminate; eauto.
Qed.

(** For finite [a, b >= 0] that are not both zero, the sign of
    [(a - b) / (a + b)] follows the larger of the two. *)
Lemma ratio_sign (a b : float) :
  is_finite a = true -> is_finite b = true ->
  (0 <=? a) = true -> (0 <=? b) = true ->
  (a + b =? 0) = false ->
  ((b <=? a) = true -> (0 <=? (a - b) / (a + b)) = true)
  /\ ((a <=? b) = true -> ((a - b) / (a + b) <=? 0) = true).
Proof.
  intros Fa Fb Na Nb Hnz.
  destruct (finite_nonneg_cases a Fa Na) as [[sa Ea]|(ma & ea & Ea)];
    destruct (finite_nonneg_cases b Fb Nb) as [[sb Eb]|(mb & eb & Eb)].
  all: pose proof (valid_canonical a) as Ca; pose proof (valid_canonical b) as Cb.
  all: rewrite !leb_spec; rewrite eqb_spec in Hnz.
  all: rewrite div_spec, add_spec, sub_spec in *.
  all: change (Prim2SF 0) with (S754_zero false) in *.
  all: rewrite Ea, Eb in *.
  - destruct sa, sb; discriminate Hnz.
  - unfold SF64div, SF64sub, SF64add, SFsub, SFadd, SFdiv. cbn [negb].
    rewrite F64.div_core_self. split; [discriminate|reflexivity].
  - unfold SF64div, SF64sub, SF64add, SFsub, SFadd, SFdiv.
    rewrite F64.div_core_self. split; [reflexivity|discriminate].
  - specialize (Ca _ _ _ eq_refl). specialize (Cb _ _ _ eq_refl).
    destruct (SFadd_pos ma mb ea eb Ca Cb) as [Hy|(my & ey & Hy & HyA & HyB)];
      rewrite Hy in *;
      destruct (SFsub_pos ma mb ea eb Ca Cb)
        as [[_ Hx]|[[Hlt [Hx|(mx & ex & Hx & HxA)]]|[Hlt [Hx|(mx & ex & Hx & HxB)]]]];
      cbv zeta in Hx; rewrite Hx in *.
    all: split; intros Hle; try reflexivity.
    all: try (apply (SFleb_canonical_inv _ _ _ _ Ca Cb) in Hle; lra).
    all: try (apply (SFleb_canonical_inv _ _ _ _ Cb Ca) in Hle; lra).
    + destruct (SFdiv_le_one false mx my ex ey ltac:(lra)) as [Hz|(m & e & Hr & H1)].
      * rewrite Hz. reflexivity.
      * rewrite Hr. reflexivity.
    + destruct (SFdiv_le_one true mx my ex ey ltac:(lra)) as [Hz|(m & e & Hr & H1)].
      * rewrite Hz. reflexivity.
      * rewrite Hr. reflexivity.
Qed.

(** *** Products and sums around the best prices *)

(** A non-negative depth is converted to a non-negative value. *)
Lemma div_bps_nonneg (d : float) :
  (0 <=? d) = true -> (0 <=? d / Np.bps) = true.
Proof.
  rewrite !nonneg_spec, div_spec, Prim2SF_bps.
  destruct (Prim2SF d) as [sd|sd| |sd md ed]; try destruct sd;
    try discriminate; try reflexivity.
  intros _. unfold SF64div, SFdiv.
  destruct (div_core_spec md bps_m ed (-66)) as (q & e' & l & Hcore & Hq & _).
  rewrite Hcore. cbn [xorb].
  pose proof (binary_round_aux_signed false q e' l Hq) as H.
  destruct (binary_round_aux prec emax false q e' l) as [s|s| |s m e];
    simpl in H; try contradiction; subst; reflexivity.
Qed.

(** [x <= x * y] for a finite [x > 0] and [y >= 1]. *)
Lemma mul_ge_one (x y : float) :
  is_finite x = true -> (0 <? x) = true -> (1 <=? y) = true ->
  (x <=? x * y) = true.
Proof.
  pose proof (valid_canonical x) as Cx. pose proof (valid_canonical y) as Cy.
  pose proof (valid_canonical (x * y)) as Cr.
  rewrite F64.is_finite_spec, pos_spec, !leb_spec. rewrite mul_spec in *.
  change (Prim2SF 1) with (S754_finite false 4503599627370496 (-52)).
  intros Fx Px Hy.
  destruct (Prim2SF x) as [sx|sx| |sx mx ex]; try destruct sx; try discriminate.
  destruct (Prim2SF y) as [sy|sy| |sy my ey]; try destruct sy; try discriminate.
  - reflexivity.
  - specialize (Cx _ _ _ eq_refl). specialize (Cy _ _ _ eq_refl).
    pose proof (SFleb_canonical_inv _ _ _ _ canonical_one Cy Hy) as HY.
    rewrite F2R_one in HY.
    destruct (SFmul_lower mx my ex ey Cx Cy mx ex Cx) as [Hi|(m3 & e3 & Hr & H3)].
    + pose proof (F2R_pos mx ex). nra.
    + rewrite Hi. reflexivity.
    + rewrite Hr in *. apply SFleb_canonical; [exact Cx| |exact H3].
      apply (Cr _ _ _ eq_refl).
Qed.

(** [x * y <= x] for a finite [x > 0] and [0 <= y <= 1]. *)
Lemma mul_le_one (x y : float) :
  is_finite x = true -> (0 <? x) = true ->
  (0 <=? y) = true -> (y <=? 1) = true ->
  (x * y <=? x) = true.
Proof.
  pose proof (valid_canonical x) as Cx. pose proof (valid_canonical y) as Cy.
  pose proof (valid_canonical (x * y)) as Cr.
  rewrite F64.is_finite_spec, pos_spec, nonneg_spec, !leb_spec.
  rewrite mul_spec in *.
  change (Prim2SF 1) with (S754_finite false 4503599627370496 (-52)).
  intros Fx Px Ny Hy.
  destruct (Prim2SF x) as [sx|sx| |sx mx ex]; try destruct sx; try discriminate.
  destruct (Prim2SF y) as [sy|sy| |sy my ey]; try destruct sy; try discriminate;
    try reflexivity.
  specialize (Cx _ _ _ eq_refl). specialize (Cy _ _ _ eq_refl).
  pose proof (SFleb_canonical_inv _ _ _ _ Cy canonical_one Hy) as HY.
  rewrite F2R_one in HY.
  destruct (SFmul_upper mx my ex ey Cx Cy mx ex Cx) as [Hz|(m3 & e3 & Hr & H3)].
  - pose proof (F2R_pos mx ex). pose proof (F2R_pos my ey). nra.
  - rewrite Hz. reflexivity.
  - rewrite Hr in *. apply SFleb_canonical; [|exact Cx|exact H3].
    apply (Cr _ _ _ eq_refl).
Qed.

(** For [c >= 0], [1 - c] is either negative (or [-0.0]) or in [[0, 1]]. *)
Lemma one_sub_cases (c : float) :
  (0 <=? c) = true ->
  signed true (Prim2SF (1 - c))
  \/ ((0 <=? 1 - c) = true /\ (1 - c <=? 1) = true).
Proof.
  pose proof (valid_canonical c) as Cc.
  pose proof (valid_canonical (1 - c)) as Cr.
  rewrite !nonneg_spec, leb_spec. rewrite sub_spec in *.
  change (Prim2SF 1) with (S754_finite false 4503599627370496 (-52)) in *.
  intros Nc.
  destruct (Prim2SF c) as [sc|sc| |sc mc ec]; try destruct sc; try discriminate.
  - right. split; reflexivity.
  - right. split; reflexivity.
  - left. reflexivity.
  - specialize (Cc _ _ _ eq_refl).
    destruct (SFsub_pos 4503599627370496 mc (-52) ec canonical_one Cc)
      as [[_ Hr]|[[_ [Hr|(m3 & e3 & Hr & H3)]]|[_ [Hr|(m3 & e3 & Hr & _)]]]];
      cbv zeta in Hr; rewrite Hr in *.
    + right. split; reflexivity.
    + right. split; reflexivity.
    + right. split; [reflexivity|].
      apply SFleb_canonical; [apply (Cr _ _ _ eq_refl)|exact canonical_one|exact H3].
    + left. reflexivity.
    + left. reflexivity.
Qed.

(** The best ask is inside the band of every non-negative converted depth. *)
Lemma best_ask_within (ba c : float) :
  is_finite ba = true -> (0 <? ba) = true -> (0 <=? c) = true ->
  (ba <=? ba * (1 + c)) = true.
Proof.
  intros Fb Pb Nc. apply mul_ge_one; trivial. apply one_add_ge. exact Nc.
Qed.

(** So is the best bid. *)
Lemma best_bid_within (bb c : float) :
  is_finite bb = true -> (0 <? bb) = true -> (0 <=? c) = true ->
  (bb * (1 - c) <=? bb) = true.
Proof.
  intros Fb Pb Nc. destruct (one_sub_cases c Nc) as [Hs|[H0 H1]].
  - apply signed_le_pos; [|exact Pb]. apply mul_pos_signed; assumption.
  - apply mul_le_one; assumption.
Qed.

(** A positive total stays positive when a quantity [>= 0] is added. *)
Lemma add_pos_nonneg (a q : float) :
  (0 <? a) = true -> (0 <=? q) = true -> (0 <? a + q) = true.
Proof.
  pose proof (valid_canonical a) as Ca. pose proof (valid_canonical q) as Cq.
  rewrite !pos_spec, nonneg_spec, add_spec.
  intros Pa Nq.
  destruct (Prim2SF a) as [sa|sa| |sa ma ea]; try destruct sa; try discriminate;
    destruct (Prim2SF q) as [sq|sq| |sq mq eq]; try destruct sq;
    try discriminate; try reflexivity.
  specialize (Ca _ _ _ eq_refl). specialize (Cq _ _ _ eq_refl).
  destruct (SFadd_pos ma mq ea eq Ca Cq) as [Hy|(m3 & e3 & Hy & _)];
    rewrite Hy; reflexivity.
Qed.

Lemma zero_add (q : float) : (q =? 0) = false -> 0 + q = q.
Proof.
  intros Hq. apply Prim2SF_inj. rewrite add_spec, F64.Prim2SF_0.
  rewrite F64.zero_spec in Hq.
  destruct (Prim2SF q) as [s|s| |s m e]; try destruct s;
    try reflexivity; discriminate.
Qed.

Lemma leb_nan_r (p x : float) : is_nan x = true -> (p <=? x) = false.
Proof.
  rewrite is_nan_spec, leb_spec.
  destruct (Prim2SF x); try discriminate. intros _.
  destruct (Prim2SF p) as [s|s| |s m e]; reflexivity.
Qed.
End Laws.

(** ** The trade-flow imbalance *)

Module TradesTheory.
Import Trades.
Open Scope float_scope.

Section Loop.
Context {ext : Externals}.

(** A read of a column of the tape: the field of row [i] inside the tape,
    the memory past its end otherwise. *)
Lemma column_read (f : trade -> float) (trades : list trade) (i : nat)
      (d : float) :
  nth i (map f trades) d
  = match nth_error trades i with Some t => f t | None => d end.
Proof.
  revert i. induction trades as [|t l IH]; intros [|i]; simpl; auto.
Qed.

Lemma step_columns (t1 t2 : list trade) (ws : list float)
      (delta : float * float) (i : nat) :
  option_map columns (nth_error t1 i) = option_map columns (nth_error t2 i) ->
  step t1 ws delta i = step t2 ws delta i.
Proof.
  intros H. unfold step, trade_side, weighted_qty, Np.getitem.
  rewrite !column_read. destruct delta as [b s].
  destruct (nth_error t1 i) as [r1|], (nth_error t2 i) as [r2|];
    simpl in H; try discriminate; try reflexivity.
  injection H as Hside Hsize. rewrite Hside, Hsize. reflexivity.
Qed.

Lemma fold_columns (t1 t2 : list trade) (ws : list float) (idx : list nat) :
  (forall i, In i idx ->
     option_map columns (nth_error t1 i) = option_map columns (nth_error t2 i)) ->
  forall delta,
    fold_left (step t1 ws) idx delta = fold_left (step t2 ws) idx delta.
Proof.
  induction idx as [|i idx IH]; intros H delta; simpl.
  - reflexivity.
  - rewrite (step_columns t1 t2 ws delta i) by (apply H; left; reflexivity).
    apply IH. intros j Hj. apply H. right. exact Hj.
Qed.

(** Inside the tape and the weights, one iteration adds the trade of index
    [i] with the weight of index [i]. *)
Lemma step_ok (trades : list trade) (ws : list float)
      (delta : float * float) (i : nat) (t : trade) (w : float) :
  nth_error trades i = Some t -> nth_error ws i = Some w ->
  step trades ws delta i = add_trade delta (t, w).
Proof.
  intros Et Ew. unfold step, trade_side, weighted_qty, Np.getitem, add_trade.
  rewrite !column_read, Et. rewrite (nth_error_nth ws i _ Ew).
  destruct delta as [b s]. cbn [fst snd].
  destruct (side t =? 0); reflexivity.
Qed.

Lemma firstn_skipn_cons {A : Type} (l : list A) (k n : nat) (x : A) :
  nth_error l k = Some x ->
  firstn (S n) (skipn k l) = x :: firstn n (skipn (S k) l).
Proof.
  revert l. induction k as [|k IH]; intros [|y l] E; try discriminate.
  - injection E as ->. reflexivity.
  - apply (IH l E).
Qed.

(** With enough weights the loop reads nothing past the end of an array
    and is a fold over the first [n] trades paired with their weights. *)
Lemma loop_fold (trades : list trade) (ws : list float) (n k : nat)
      (delta : float * float) :
  (k + n <= length trades)%nat -> (k + n <= length ws)%nat ->
  fold_left (step trades ws) (seq k n) delta
  = fold_left add_trade
              (combine (firstn n (skipn k trades)) (firstn n (skipn k ws)))
              delta.
Proof.
  revert k delta. induction n as [|n IH]; intros k delta Ht Hw.
  - reflexivity.
  - destruct (nth_error trades k) as [t|] eqn:Et;
      [|apply nth_error_None in Et; lia].
    destruct (nth_error ws k) as [w|] eqn:Ew;
      [|apply nth_error_None in Ew; lia].
    rewrite (firstn_skipn_cons _ _ n _ Et), (firstn_skipn_cons _ _ n _ Ew).
    cbn [seq combine fold_left].
    rewrite (step_ok _ _ delta _ _ _ Et Ew).
    apply IH; lia.
Qed.

Lemma totals_fold (trades : list trade) (ws : list float) (window : Z) :
  (Z.to_nat window <= length trades)%nat ->
  (Z.to_nat window <= length ws)%nat ->
  totals trades ws window
  = fold_left add_trade
              (combine (firstn (Z.to_nat window) trades)
                       (firstn (Z.to_nat window) ws))
              (0, 0).
Proof.
  intros Ht Hw. unfold totals.
  rewrite loop_fold by (simpl; assumption). reflexivity.
Qed.
End Loop.

Section Results.
Context {ext : Externals}.

Lemma trades_imbalance_eq (trades : list trade) (window : Z) (ws : list float) :
  ema_weights (effective_window trades window) true = Ok ws ->
  (Z.to_nat (effective_window trades window) <= length ws)%nat ->
  let delta :=
    fold_left add_trade
              (combine (firstn (Z.to_nat (effective_window trades window)) trades)
                       (firstn (Z.to_nat (effective_window trades window)) ws))
              (0, 0) in
  trades_imbalance trades window
  = Np.truediv (fst delta - snd delta) (fst delta + snd delta).
Proof.
  intros Hw Hlen delta. unfold trades_imbalance.
  fold (effective_window trades window). rewrite Hw. cbn [bind].
  rewrite totals_fold; [|unfold effective_window; lia|exact Hlen].
  fold delta. destruct delta as [b s]. reflexivity.
Qed.

Lemma fold_zero (l : list (trade * float)) (b s : float) :
  Forall (fun tw => Binary64.zero (np_log (1 + size (fst tw)) * snd tw)) l ->
  Binary64.zero b -> Binary64.zero s ->
  Binary64.zero (fst (fold_left add_trade l (b, s))) /\
  Binary64.zero (snd (fold_left add_trade l (b, s))).
Proof.
  revert b s. induction l as [|tw l IH]; intros b s Hl Hb Hs.
  - split; assumption.
  - inversion Hl as [|x l' Hq Hl']; subst. cbn [fold_left].
    unfold add_trade at 2 4. cbn [fst snd].
    destruct (side (fst tw) =? 0); apply IH; trivial;
      apply F64.add_zero_zero; assumption.
Qed.

Lemma fold_buys (l : list (trade * float)) (b s : float) :
  Forall (fun tw => (side (fst tw) =? 0) = true) l ->
  snd (fold_left add_trade l (b, s)) = s.
Proof.
  revert b. induction l as [|tw l IH]; intros b Hl.
  - reflexivity.
  - inversion Hl as [|x l' Hq Hl']; subst. cbn [fold_left].
    unfold add_trade at 2. rewrite Hq. apply IH. exact Hl'.
Qed.

Lemma fold_sells (l : list (trade * float)) (b s : float) :
  Forall (fun tw => (side (fst tw) =? 0) = false) l ->
  fst (fold_left add_trade l (b, s)) = b.
Proof.
  revert s. induction l as [|tw l IH]; intros s Hl.
  - reflexivity.
  - inversion Hl as [|x l' Hq Hl']; subst. cbn [fold_left].
    unfold add_trade at 2. rewrite Hq. apply IH. exact Hl'.
Qed.

Lemma Forall_combine_fst {A B : Type} (P : A -> Prop) (l : list A) (l' : list B) :
  Forall P l -> Forall (fun ab => P (fst ab)) (combine l l').
Proof.
  intros H. revert l'. induction H as [|a l Ha Hl IH]; intros [|b l']; simpl;
    constructor; auto.
Qed.

End Results.

(** *** Degenerate totals *)

Lemma zero_denominator {ext : Externals}
      (trades : list trade) (window : Z) (ws : list float) (b s : float) :
  ema_weights (effective_window trades window) true = Ok ws ->
  totals trades ws (effective_window trades window) = (b, s) ->
  Binary64.zero b -> Binary64.zero s ->
  trades_imbalance trades window = Raise ZeroDivisionError.
Proof.
  intros Hw Ht Hb Hs. unfold trades_imbalance.
  fold (effective_window trades window). rewrite Hw. cbn [bind].
  rewrite Ht. unfold Np.truediv.
  rewrite (F64.add_zero_zero b s Hb Hs). reflexivity.
Qed.

Lemma empty_window_raises {ext : Externals}
      (trades : list trade) (window : Z) (ws : list float) :
  ema_weights (effective_window trades window) true = Ok ws ->
  (effective_window trades window <= 0)%Z ->
  trades_imbalance trades window = Raise ZeroDivisionError.
Proof.
  intros Hw Hle. apply (zero_denominator trades window ws 0 0 Hw);
    try reflexivity.
  unfold totals.
  replace (Z.to_nat (effective_window trades window)) with O by lia.
  reflexivity.
Qed.

(** C4, as amended: whenever the buy total and the sell total are both
    zero, [trades_imbalance] raises [ZeroDivisionError] at the final
    division: it returns no value at all, so neither NaN nor [0] nor any
    default.  This is the case when the effective window is empty, and when
    every size in the effective window is zero (with [np.log(1.0) = 0.0] and
    finite weights). *)
Theorem zero_totals_raise {ext : Externals}
        (trades : list trade) (window : Z) (ws : list float) :
  ema_weights (effective_window trades window) true = Ok ws ->
  (forall b s,
      totals trades ws (effective_window trades window) = (b, s) ->
      Binary64.zero b -> Binary64.zero s ->
      trades_imbalance trades window = Raise ZeroDivisionError)
  /\ ((effective_window trades window <= 0)%Z ->
      trades_imbalance trades window = Raise ZeroDivisionError)
  /\ (np_log 1 = 0 ->
      (Z.to_nat (effective_window trades window) <= length ws)%nat ->
      Forall Binary64.finite ws ->
      Forall (fun t => Binary64.zero (size t))
             (firstn (Z.to_nat (effective_window trades window)) trades) ->
      trades_imbalance trades window = Raise ZeroDivisionError).
Proof.
  intros Hw. split; [|split].
  - intros b s. apply (zero_denominator trades window ws b s Hw).
  - apply (empty_window_raises trades window ws Hw).
  - intros Hlog Hlen Hfin Hsz.
    pose proof (totals_fold trades ws (effective_window trades window)) as Ht.
    specialize (Ht ltac:(unfold effective_window; lia) Hlen).
    set (l := combine _ _) in Ht.
    destruct (fold_zero l 0 0) as [Hb Hs]; try reflexivity.
    + subst l. apply Forall_forall. intros [t w] Hin. cbn [fst snd].
      assert (Ht' : Binary64.zero (size t)).
      { apply in_combine_l in Hin.
        rewrite Forall_forall in Hsz. apply Hsz. exact Hin. }
      assert (Hw' : Binary64.finite w).
      { apply in_combine_r in Hin. apply Lists.In_firstn in Hin.
        rewrite Forall_forall in Hfin. apply Hfin. exact Hin. }
      rewrite (F64.one_add_zero _ Ht'), Hlog. apply F64.mul_0_l. exact Hw'.
    + destruct (fold_left add_trade l (0, 0)) as [b s] eqn:E.
      apply (zero_denominator trades window ws b s); assumption.
Qed.

Lemma zero_totals_raise_witness :
  trades_imbalance (ext := Reference.externals) [Trade 1e10 0 100.5 0] 1
  = Raise ZeroDivisionError.
Proof.
  refine (proj2 (proj2 (zero_totals_raise (ext := Reference.externals)
                          [Trade 1e10 0 100.5 0] 1 [1] eq_refl)) _ _ _ _).
  - reflexivity.
  - simpl. lia.
  - repeat constructor.
  - repeat constructor.
Defined.

(** The claim of C4 fails on the empty tape: the result is an exception,
    not NaN. *)
Lemma empty_tape_is_not_nan :
  trades_imbalance (ext := Reference.externals) [] 1 = Raise ZeroDivisionError
  /\ trades_imbalance (ext := Reference.externals) [] 1 <> Ok nan.
Proof. split; [reflexivity|discriminate]. Qed.

(** *** One-sided tapes *)

(** C5, as amended: when every trade of the effective window is a buy and
    the buy total is strictly positive and finite, the result is exactly
    [1.0]; when every trade is a sell and the sell total is strictly
    positive and finite, the result is exactly [-1.0]. *)
Theorem one_sided_tape {ext : Externals}
        (trades : list trade) (window : Z) (ws : list float) (b s : float) :
  ema_weights (effective_window trades window) true = Ok ws ->
  totals trades ws (effective_window trades window) = (b, s) ->
  (Z.to_nat (effective_window trades window) <= length ws)%nat ->
  (Forall (fun t => side t = 0)
          (firstn (Z.to_nat (effective_window trades window)) trades) ->
   (0 <? b) = true -> Binary64.finite b ->
   trades_imbalance trades window = Ok 1)
  /\ (Forall (fun t => side t = 1)
             (firstn (Z.to_nat (effective_window trades window)) trades) ->
      (0 <? s) = true -> Binary64.finite s ->
      trades_imbalance trades window = Ok (-1)).
Proof.
  intros Hw Ht Hlen.
  assert (Hfold := totals_fold trades ws (effective_window trades window)
                     ltac:(unfold effective_window; lia) Hlen).
  rewrite Ht in Hfold.
  assert (Hres : trades_imbalance trades window = Np.truediv (b - s) (b + s)).
  { unfold trades_imbalance. fold (effective_window trades window).
    rewrite Hw. cbn [bind]. rewrite Ht. reflexivity. }
  rewrite Hres. split.
  - intros Hside Hpos Hfin.
    assert (Hs : s = 0).
    { change s with (snd (b, s)). rewrite Hfold. apply fold_buys.
      apply Forall_combine_fst with (P := fun t => (side t =? 0) = true).
      revert Hside. apply Forall_impl. intros t E. rewrite E. reflexivity. }
    subst s. unfold Np.truediv.
    pose proof (F64.pos_nonzero b Hpos) as Hnz.
    rewrite F64.sub_0_r, (F64.add_0_r b Hnz), Hnz, (F64.div_self b Hfin Hnz).
    reflexivity.
  - intros Hside Hpos Hfin.
    assert (Hb : b = 0).
    { change b with (fst (b, s)). rewrite Hfold. apply fold_sells.
      apply Forall_combine_fst with (P := fun t => (side t =? 0) = false).
      revert Hside. apply Forall_impl. intros t E. rewrite E. reflexivity. }
    subst b. unfold Np.truediv.
    pose proof (F64.pos_nonzero s Hpos) as Hnz.
    rewrite (F64.zero_add_nonzero s Hnz), (F64.div_opp_self s Hfin Hnz).
    reflexivity.
Qed.

Lemma one_sided_tape_witness :
  trades_imbalance (ext := Reference.externals)
                   [Trade 1e10 0 100.5 0.5; Trade 1e10 0 100.75 2] 2 = Ok 1
  /\ trades_imbalance (ext := Reference.externals)
                      [Trade 1e10 1 100.5 0.5; Trade 1e10 1 100.75 2] 2 = Ok (-1).
Proof.
  split.
  - refine (proj1 (one_sided_tape (ext := Reference.externals)
                     [Trade 1e10 0 100.5 0.5; Trade 1e10 0 100.75 2] 2
                     [0.5; 0.5] 1.25 0 eq_refl eq_refl _) _ _ _).
    + simpl. lia.
    + repeat constructor.
    + reflexivity.
    + reflexivity.
  - refine (proj2 (one_sided_tape (ext := Reference.externals)
                     [Trade 1e10 1 100.5 0.5; Trade 1e10 1 100.75 2] 2
                     [0.5; 0.5] 0 1.25 eq_refl eq_refl _) _ _ _).
    + simpl. lia.
    + repeat constructor.
    + reflexivity.
    + reflexivity.
Defined.

(** The claim of C5 fails for an infinite buy total: one buy of size
    [+inf] gives [inf / inf]. *)
Lemma infinite_buy_total_is_nan :
  totals (ext := Reference.externals) [Trade 1e10 0 100.5 infinity] [1] 1
  = (infinity, 0)
  /\ (0 <? infinity) = true
  /\ trades_imbalance (ext := Reference.externals)
                      [Trade 1e10 0 100.5 infinity] 1 = Ok nan
  /\ trades_imbalance (ext := Reference.externals)
                      [Trade 1e10 0 100.5 infinity] 1 <> Ok 1.
Proof.
  repeat split; try reflexivity.
  intros H.
  apply (f_equal (fun r => match r with
                           | Ok x => Prim2SF x
                           | Raise _ => S754_nan
                           end)) in H.
  vm_compute in H. discriminate H.
Qed.

(** *** The window *)

(** C6, as amended: a window larger than the tape is clamped to the tape
    length, and the call is indistinguishable from the call with
    [window = len(trades)]: same value or same exception, computed over all
    the trades of the tape.  Once the generator has returned its
    [len(trades)] weights the only exception left is the
    [ZeroDivisionError] of the final division. *)
Theorem oversized_window_clamps {ext : Externals}
        (trades : list trade) (window : Z) :
  (Z.of_nat (length trades) < window)%Z ->
  effective_window trades window = Z.of_nat (length trades)
  /\ trades_imbalance trades window
     = trades_imbalance trades (Z.of_nat (length trades))
  /\ (forall ws,
        ema_weights (Z.of_nat (length trades)) true = Ok ws ->
        length ws = length trades ->
        let delta := fold_left add_trade (combine trades ws) (0, 0) in
        trades_imbalance trades window
        = Np.truediv (fst delta - snd delta) (fst delta + snd delta)).
Proof.
  intros Hlt.
  assert (He : effective_window trades window = Z.of_nat (length trades))
    by (unfold effective_window; lia).
  split; [exact He|split].
  - unfold trades_imbalance. fold (effective_window trades window).
    rewrite He, Z.min_id. reflexivity.
  - intros ws Hw Hlen delta.
    pose proof (trades_imbalance_eq trades window ws) as H.
    rewrite He, Nat2Z.id in H. specialize (H Hw ltac:(lia)).
    rewrite firstn_all in H. rewrite <- Hlen, firstn_all in H. exact H.
Qed.

Lemma oversized_window_clamps_witness :
  trades_imbalance (ext := Reference.externals) tape5 7
  = trades_imbalance (ext := Reference.externals) tape5 5.
Proof.
  refine (proj1 (proj2 (oversized_window_clamps
                          (ext := Reference.externals) tape5 7 _))).
  simpl. lia.
Defined.

(** The claim of C6 fails on the empty tape: window 1 is larger than the
    tape, and the call raises. *)
Lemma oversized_window_may_raise :
  (Z.of_nat (length (@nil trade)) < 1)%Z
  /\ trades_imbalance (ext := Reference.externals) [] 1
     = Raise ZeroDivisionError.
Proof. split; reflexivity. Qed.

(** *** What the result depends on *)

(** The two accumulators of the loop are two separate sums: the buy total
    adds, in index order, the weighted quantities of the rows whose side
    compares equal to [0.0]; the sell total adds those of all other rows. *)
Lemma fold_split {ext : Externals} (l : list (trade * float)) (b s : float) :
  fold_left add_trade l (b, s)
  = (fold_left add (map qty (filter is_buy l)) b,
     fold_left add (map qty (filter (fun tw => negb (is_buy tw)) l)) s).
Proof.
  revert b s. induction l as [|tw l IH]; intros b s; [reflexivity|].
  cbn [fold_left].
  replace (add_trade (b, s) tw)
    with (if is_buy tw then (b + qty tw, s) else (b, s + qty tw))
    by (unfold add_trade, is_buy, qty; cbn [fst snd];
        destruct (side (fst tw) =? 0); reflexivity).
  cbn [filter]. destruct (is_buy tw); cbn [negb map fold_left]; apply IH.
Qed.

(** C10: the result is the normalised difference of two totals, the buy
    total being the sum of the weighted quantities of the rows of the
    effective window whose side compares equal to [0.0] and the sell total
    the sum over the rows with any other side value; one iteration adds the
    trade to the buy total exactly when its side compares equal to [0.0]; and
    two tapes of equal length whose rows inside the effective window agree
    on the side and size columns give the same result, whatever their
    timestamp and price columns. *)
Theorem side_and_size_only {ext : Externals} :
  (forall trades window ws,
      ema_weights (effective_window trades window) true = Ok ws ->
      (Z.to_nat (effective_window trades window) <= length ws)%nat ->
      let rows := window_rows trades ws window in
      totals trades ws (effective_window trades window)
      = (buy_total rows, sell_total rows)
      /\ trades_imbalance trades window
         = Np.truediv (buy_total rows - sell_total rows)
                      (buy_total rows + sell_total rows))
  /\ (forall trades ws b s i t w,
        nth_error trades i = Some t -> nth_error ws i = Some w ->
        step trades ws (b, s) i
        = if side t =? 0
          then (b + np_log (1 + size t) * w, s)
          else (b, s + np_log (1 + size t) * w))
  /\ (forall t1 t2 window,
        length t1 = length t2 ->
        (forall i, (Z.of_nat i < effective_window t1 window)%Z ->
                   option_map columns (nth_error t1 i)
                   = option_map columns (nth_error t2 i)) ->
        trades_imbalance t1 window = trades_imbalance t2 window).
Proof.
  split; [|split].
  - intros trades window ws Hw Hlen rows.
    assert (Ht : totals trades ws (effective_window trades window)
                 = (buy_total rows, sell_total rows)).
    { rewrite totals_fold; [|unfold effective_window; lia|exact Hlen].
      apply fold_split. }
    split; [exact Ht|].
    unfold trades_imbalance. fold (effective_window trades window).
    rewrite Hw. cbn [bind]. rewrite Ht. reflexivity.
  - intros trades ws b s i t w Et Ew.
    rewrite (step_ok _ _ (b, s) _ _ _ Et Ew). unfold add_trade. cbn [fst snd].
    destruct (side t =? 0); reflexivity.
  - intros t1 t2 window Hlen Hcols. unfold trades_imbalance.
    rewrite <- Hlen. fold (effective_window t1 window).
    destruct (ema_weights (effective_window t1 window) true) as [ws|e];
      [|reflexivity].
    cbn [bind]. unfold totals.
    rewrite (fold_columns t1 t2 ws); [reflexivity|].
    intros i Hi. apply in_seq in Hi. apply Hcols. lia.
Qed.

(** Sides other than [1.0] are sells too, and [-0.0] is a buy. *)
Lemma other_sides_are_sells {ext : Externals} (b s w : float) (t : trade) :
  In (side t) [1; 2; -1; nan; infinity] ->
  step [t] [w] (b, s) 0 = (b, s + np_log (1 + size t) * w).
Proof.
  intros Hin. rewrite (step_ok [t] [w] (b, s) 0 t w eq_refl eq_refl).
  unfold add_trade. cbn [fst snd].
  cbn [In] in Hin.
  destruct Hin as [H|[H|[H|[H|[H|[]]]]]]; rewrite <- H; reflexivity.
Qed.

Lemma negative_zero_is_buy {ext : Externals} (b s w : float) (t : trade) :
  side t = (-0) ->
  step [t] [w] (b, s) 0 = (b + np_log (1 + size t) * w, s).
Proof.
  intros H. rewrite (step_ok [t] [w] (b, s) 0 t w eq_refl eq_refl).
  unfold add_trade. cbn [fst snd]. rewrite H. reflexivity.
Qed.

(** *** The range of the result *)

Lemma fold_nonneg {ext : Externals} (l : list (trade * float)) (b s : float) :
  Forall (fun tw => Binary64.nonneg_or_nan (np_log (1 + size (fst tw)) * snd tw)) l ->
  Binary64.nonneg_or_nan b -> Binary64.nonneg_or_nan s ->
  Binary64.nonneg_or_nan (fst (fold_left add_trade l (b, s)))
  /\ Binary64.nonneg_or_nan (snd (fold_left add_trade l (b, s))).
Proof.
  revert b s. induction l as [|tw l IH]; intros b s Hl Hb Hs.
  - split; assumption.
  - inversion Hl as [|x l' Hq Hl']; subst. cbn [fold_left].
    unfold add_trade at 2 4. cbn [fst snd].
    destruct (side (fst tw) =? 0); apply IH; trivial;
      apply Sign.add_nonneg; assumption.
Qed.

(** C3, as amended: for every tape whose sizes are all [>= 0], with
    [np.log(x) >= 0] for [x >= 1], non-negative weights, and the two
    accumulated totals finite: when both totals are zero
    [trades_imbalance] raises [ZeroDivisionError]; otherwise it returns
    [(buy total - sell total) / (buy total + sell total)], a value in the
    closed interval [[-1, 1]]. *)
Theorem imbalance_range {ext : Externals}
        (trades : list trade) (window : Z) (ws : list float) (b s : float) :
  Forall (fun t => (0 <=? size t) = true) trades ->
  (forall x, (1 <=? x) = true -> (0 <=? np_log x) = true) ->
  ema_weights (effective_window trades window) true = Ok ws ->
  (Z.to_nat (effective_window trades window) <= length ws)%nat ->
  Forall (fun w => (0 <=? w) = true) ws ->
  totals trades ws (effective_window trades window) = (b, s) ->
  Binary64.finite b -> Binary64.finite s ->
  (Binary64.zero b /\ Binary64.zero s ->
   trades_imbalance trades window = Raise ZeroDivisionError)
  /\ (~ (Binary64.zero b /\ Binary64.zero s) ->
      trades_imbalance trades window = Ok ((b - s) / (b + s))
      /\ (-1 <=? (b - s) / (b + s)) = true
      /\ ((b - s) / (b + s) <=? 1) = true).
Proof.
  intros Hsz Hlog Hw Hlen Hws Ht Fb Fs. split.
  - intros [Zb Zs]. apply (zero_denominator trades window ws b s); assumption.
  - intros Hnz.
    assert (Hfold := totals_fold trades ws (effective_window trades window)
                       ltac:(unfold effective_window; lia) Hlen).
    rewrite Ht in Hfold. symmetry in Hfold.
    set (l := combine _ _) in Hfold.
    destruct (fold_nonneg l 0 0) as [Hb Hs]; try (left; reflexivity).
    { subst l. apply Forall_forall. intros [t w] Hin. cbn [fst snd].
      apply Sign.mul_nonneg.
      - apply Hlog. apply Sign.one_add_ge.
        apply in_combine_l in Hin. apply Lists.In_firstn in Hin.
        rewrite Forall_forall in Hsz. apply Hsz. exact Hin.
      - apply in_combine_r in Hin. apply Lists.In_firstn in Hin.
        rewrite Forall_forall in Hws. apply Hws. exact Hin. }
    rewrite Hfold in Hb, Hs. cbn [fst snd] in Hb, Hs.
    pose proof (Sign.finite_nonneg b Fb Hb) as Nb.
    pose proof (Sign.finite_nonneg s Fs Hs) as Ns.
    assert (Hz : (b + s =? 0) = false).
    { destruct (b + s =? 0) eqn:Hz; [|reflexivity]. exfalso. apply Hnz.
      apply (Sign.add_zero_inv b s Fb Fs Nb Ns Hz). }
    split.
    + unfold trades_imbalance. fold (effective_window trades window).
      rewrite Hw. cbn [bind]. rewrite Ht. unfold Np.truediv. rewrite Hz.
      reflexivity.
    + apply Round.ratio_range; assumption.
Qed.

Lemma imbalance_range_witness :
  trades_imbalance (ext := Reference.externals) tape5 5
  = Ok ((0.53125 - 0.0703125) / (0.53125 + 0.0703125))
  /\ (-1 <=? (0.53125 - 0.0703125) / (0.53125 + 0.0703125)) = true
  /\ ((0.53125 - 0.0703125) / (0.53125 + 0.0703125) <=? 1) = true.
Proof.
  refine (proj2 (imbalance_range (ext := Reference.externals) tape5 5
                   [0.0625; 0.0625; 0.125; 0.25; 0.5] 0.53125 0.0703125
                   _ _ _ _ _ _ _ _) _).
  - repeat constructor.
  - intros x. apply Sign.sub_one_nonneg.
  - reflexivity.
  - simpl. lia.
  - repeat constructor.
  - reflexivity.
  - reflexivity.
  - reflexivity.
  - intros [H _]. discriminate H.
Defined.

(** The claim of C3 fails twice: on the empty tape the result is an
    exception, not NaN; and one buy of size [+inf] gives NaN although the buy
    total is not zero. *)
Lemma range_exceptions :
  trades_imbalance (ext := Reference.externals) [] 1 = Raise ZeroDivisionError
  /\ (0 <=? infinity) = true
  /\ totals (ext := Reference.externals) [Trade 1e10 0 100.5 infinity] [1] 1
     = (infinity, 0)
  /\ trades_imbalance (ext := Reference.externals)
                      [Trade 1e10 0 100.5 infinity] 1 = Ok nan.
Proof. repeat split; reflexivity. Qed.
End TradesTheory.

(** ** The order-book imbalance *)

Module OrderBookTheory.
Import OrderBook.
Open Scope float_scope.

Section Results.
Context {ext : Externals}.

Lemma map_each_map {X Y Z : Type} (f : Y -> result Z) (g : X -> Y)
      (xs : list X) :
  Np.map_each f (map g xs) = Np.map_each (fun x => f (g x)) xs.
Proof.
  induction xs as [|x xs IH]; simpl; [reflexivity|].
  rewrite IH. reflexivity.
Qed.

Lemma map_each_ext {X Y : Type} (f g : X -> result Y) (xs : list X) :
  (forall x, In x xs -> f x = g x) ->
  Np.map_each f xs = Np.map_each g xs.
Proof.
  induction xs as [|x xs IH]; intros H; simpl; [reflexivity|].
  rewrite (H x (or_introl eq_refl)), IH; [reflexivity|].
  intros y Hy. apply H. right. exact Hy.
Qed.

Lemma map_each_const {X Y : Type} (f : X -> result Y) (y : Y) (xs : list X) :
  (forall x, In x xs -> f x = Ok y) ->
  Np.map_each f xs = Ok (repeat y (length xs)).
Proof.
  induction xs as [|x xs IH]; intros H; simpl; [reflexivity|].
  rewrite (H x (or_introl eq_refl)), IH; [reflexivity|].
  intros z Hz. apply H. right. exact Hz.
Qed.

Lemma imbalance_band (bids asks : side_t) (bb ba d : float) :
  imbalance bids asks bb ba (d / Np.bps) = band_imbalance bids asks bb ba d.
Proof. reflexivity. Qed.

(** The weighted sum once the per-depth imbalances are known. *)
Lemma orderbook_imbalance_eq (bids asks : side_t) (depths ws xs : list float)
      (bb ba : float) :
  ema_weights (Z.of_nat (length depths)) false = Ok ws ->
  nth_error (map fst bids) 0 = Some bb ->
  nth_error (map fst asks) 0 = Some ba ->
  Np.map_each (imbalance bids asks bb ba) (convert depths) = Ok xs ->
  orderbook_imbalance bids asks depths
  = (weighted <- Np.mul xs ws ;; Ok (Np.sum weighted)).
Proof.
  intros Hw Hb Ha Hx. unfold orderbook_imbalance.
  rewrite Hw. cbn [bind].
  rewrite (Lists.getitem_in_range _ _ _ _ Hb).
  rewrite (Lists.getitem_in_range _ _ _ _ Ha).
  cbv zeta. rewrite Hx. reflexivity.
Qed.

Lemma sum_zeros (l : list float) :
  Forall Binary64.zero l -> Np.sum l = 0.
Proof.
  unfold Np.sum. induction 1 as [|x l Hx Hl IH]; simpl; [reflexivity|].
  rewrite (F64.add_0_l_zero x Hx). exact IH.
Qed.
End Results.

(** *** The conversion of the depths *)

(** C1, as amended: every depth is converted by the float64 division
    [depth_i / 1e-4], so the band of depth [i] is
    [min_bid = best_bid * (1 - depth_i / 1e-4)] and
    [max_ask = best_ask * (1 + depth_i / 1e-4)]; the quotient is
    [depth_i * 10000] up to rounding, exactly so for the depths
    [10, 20, 30, 40, 50] of the docstring. *)
Theorem band_bounds {ext : Externals} :
  (forall bids asks depths,
      orderbook_imbalance bids asks depths
      = (weights <- ema_weights (Z.of_nat (length depths)) false ;;
         let best_bid_p := Np.getitem (stray Bid_p) (map fst bids) 0 in
         let best_ask_p := Np.getitem (stray Ask_p) (map fst asks) 0 in
         imbalances <- Np.map_each
                         (band_imbalance bids asks best_bid_p best_ask_p)
                         depths ;;
         weighted <- Np.mul imbalances weights ;;
         Ok (Np.sum weighted)))
  /\ (forall bb ba d,
        min_bid bb (d / Np.bps) = fst (band bb ba d)
        /\ max_ask ba (d / Np.bps) = snd (band bb ba d))
  /\ convert depths5 = map (fun d => d * 10000) depths5.
Proof.
  split; [|split].
  - intros bids asks depths. unfold orderbook_imbalance, convert.
    destruct (ema_weights _ false) as [ws|e]; [|reflexivity]. cbn [bind].
    cbv zeta. rewrite map_each_map.
    apply (f_equal (fun r => bind r _)).
    apply map_each_ext. intros d _. apply imbalance_band.
  - intros bb ba d. split; reflexivity.
  - reflexivity.
Qed.

(** The claim of C1 fails at depth [0.3]: dividing by [1e-4] gives
    [2999.9999999999995] and multiplying by [10000] gives [3000.0], so the
    two lower bounds of the band differ ([-299899.99999999994] against
    [-299900.0] for a best bid of [100.0]). *)
Lemma division_is_not_multiplication :
  convert [depth03] = [0x1.76fffffffffffp+11]
  /\ depth03 * 10000 = 3000
  /\ min_bid 100 (depth03 / Np.bps) = -0x1.24defffffffffp+18
  /\ 100 * (1 - depth03 * 10000) = -299900
  /\ min_bid 100 (depth03 / Np.bps) <> 100 * (1 - depth03 * 10000).
Proof.
  repeat split; try reflexivity.
  intros H. apply (f_equal Prim2SF) in H. vm_compute in H. discriminate H.
Qed.

(** *** Mirrored books *)

(** C7, as amended: when at every depth the counted bid quantities and the
    counted ask quantities have the same sum, and that sum is finite and not
    zero, every per-depth imbalance is [0.0] and [orderbook_imbalance]
    returns [0.0] (with [np.log(1.0) = 0.0] and one finite weight per
    depth). *)
Theorem mirrored_book {ext : Externals}
        (bids asks : side_t) (depths ws : list float) (bb ba : float) :
  ema_weights (Z.of_nat (length depths)) false = Ok ws ->
  length ws = length depths ->
  Forall Binary64.finite ws ->
  np_log 1 = 0 ->
  nth_error (map fst bids) 0 = Some bb ->
  nth_error (map fst asks) 0 = Some ba ->
  Forall (fun d =>
            total_bid_size_within_depth (map fst bids) (map snd bids) bb d
            = total_ask_size_within_depth (map fst asks) (map snd asks) ba d
            /\ Binary64.finite
                 (total_ask_size_within_depth (map fst asks) (map snd asks) ba d)
            /\ (total_ask_size_within_depth (map fst asks) (map snd asks) ba d
                =? 0) = false)
         (convert depths) ->
  Np.map_each (imbalance bids asks bb ba) (convert depths)
  = Ok (repeat 0 (length depths))
  /\ orderbook_imbalance bids asks depths = Ok 0.
Proof.
  intros Hw Hlen Hfin Hlog Hb Ha Hmirror.
  assert (Hx : Np.map_each (imbalance bids asks bb ba) (convert depths)
               = Ok (repeat 0 (length depths))).
  { replace (length depths) with (length (convert depths))
      by (unfold convert; apply length_map).
    apply map_each_const. intros d Hd.
    rewrite Forall_forall in Hmirror. destruct (Hmirror d Hd) as (Heq & Hf & Hnz).
    unfold imbalance. rewrite Heq. unfold Np.truediv. rewrite Hnz. cbn [bind].
    rewrite (F64.div_self _ Hf Hnz), Hlog. reflexivity. }
  split; [exact Hx|].
  rewrite (orderbook_imbalance_eq bids asks depths ws _ bb ba Hw Hb Ha Hx).
  unfold Np.mul. rewrite repeat_length, Hlen, Nat.eqb_refl. cbn [bind].
  rewrite sum_zeros; [reflexivity|].
  apply Forall_forall. intros y Hy. apply in_map_iff in Hy.
  destruct Hy as ([x w] & <- & Hin). cbn [fst snd].
  pose proof (in_combine_l _ _ _ _ Hin) as Hx0.
  pose proof (in_combine_r _ _ _ _ Hin) as Hw0.
  apply repeat_spec in Hx0. subst x.
  apply F64.mul_0_l. rewrite Forall_forall in Hfin. apply Hfin. exact Hw0.
Qed.

Lemma mirrored_book_witness :
  orderbook_imbalance (ext := Reference.externals) mirror mirror [10; 20] = Ok 0.
Proof.
  refine (proj2 (mirrored_book (ext := Reference.externals)
                   mirror mirror [10; 20] [0.5; 0.5] 100 100
                   eq_refl eq_refl _ eq_refl eq_refl eq_refl _)).
  - repeat constructor.
  - repeat constructor.
Defined.

(** The claim of C7 fails for a mirrored book whose quantities are zero:
    both sides count one level and both sums are equal, and the division
    raises. *)
Lemma mirrored_zero_book_raises :
  num_bids_within_depth [100] (min_bid 100 (10 / Np.bps))
  = num_asks_within_depth [100] (max_ask 100 (10 / Np.bps))
  /\ total_bid_size_within_depth [100] [0] 100 (10 / Np.bps)
     = total_ask_size_within_depth [100] [0] 100 (10 / Np.bps)
  /\ orderbook_imbalance (ext := Reference.externals) [(100, 0)] [(100, 0)] [10]
     = Raise ZeroDivisionError.
Proof. repeat split; reflexivity. Qed.

(** *** Depths above one basis-point unit *)

Lemma filter_all {A : Type} (f : A -> bool) (l : list A) :
  Forall (fun x => f x = true) l -> length (filter f l) = length l.
Proof.
  induction 1 as [|x l Hx Hl IH]; simpl; [reflexivity|].
  rewrite Hx. simpl. rewrite IH. reflexivity.
Qed.

Lemma mul_repeat (c : float) (ws : list float) :
  Np.mul (repeat c (length ws)) ws = Ok (map (fun w => c * w) ws).
Proof.
  unfold Np.mul. rewrite repeat_length, Nat.eqb_refl. f_equal.
  induction ws as [|w ws IH]; simpl; [reflexivity|].
  rewrite IH. reflexivity.
Qed.

Lemma head_In {A : Type} (l : list A) (x : A) :
  nth_error l 0 = Some x -> In x l.
Proof.
  destruct l as [|y l]; simpl; [discriminate|].
  intros H. left. congruence.
Qed.

(** C9, as amended: for a book with strictly positive finite prices and
    depths that all exceed [1e-4], every converted depth exceeds [1.0], so
    [min_bid] is not above zero and every bid level is counted; every ask
    level is counted as well as long as no ask price exceeds twice the best
    ask.  Then, the sum of the ask quantities not being zero, each per-depth
    imbalance is the constant [c = ln(sum of bid quantities / sum of ask
    quantities)] and the result is the float64 sum of [c * w_i] over the
    weights, in index order: it depends on the depths only through their
    number. *)
Theorem saturated_depths {ext : Externals}
        (bids asks : side_t) (depths ws : list float) (bb ba : float) :
  nth_error (map fst bids) 0 = Some bb ->
  nth_error (map fst asks) 0 = Some ba ->
  Forall (fun p => (0 <? p) = true /\ Binary64.finite p) (map fst bids) ->
  Forall (fun p => (0 <? p) = true /\ Binary64.finite p /\ (p <=? 2 * ba) = true)
         (map fst asks) ->
  Forall (fun d => (Np.bps <? d) = true) depths ->
  ema_weights (Z.of_nat (length depths)) false = Ok ws ->
  length ws = length depths ->
  (Np.sum (map snd asks) =? 0) = false ->
  let c := np_log (Np.sum (map snd bids) / Np.sum (map snd asks)) in
  Forall (fun d =>
            (1 <? d) = true /\ (min_bid bb d <=? 0) = true
            /\ num_bids_within_depth (map fst bids) (min_bid bb d) = length bids
            /\ num_asks_within_depth (map fst asks) (max_ask ba d) = length asks)
         (convert depths)
  /\ Np.map_each (imbalance bids asks bb ba) (convert depths)
     = Ok (repeat c (length depths))
  /\ orderbook_imbalance bids asks depths
     = Ok (Np.sum (map (fun w => c * w) ws)).
Proof.
  intros Hb Ha Hbids Hasks Hd Hw Hlen Hta c.
  pose proof (head_In _ _ Hb) as Ib. pose proof (head_In _ _ Ha) as Ia.
  rewrite Forall_forall in Hbids, Hasks.
  destruct (Hbids bb Ib) as [Pbb Fbb]. destruct (Hasks ba Ia) as (Pba & Fba & _).
  assert (Hsat : Forall (fun d =>
            (1 <? d) = true /\ (min_bid bb d <=? 0) = true
            /\ num_bids_within_depth (map fst bids) (min_bid bb d) = length bids
            /\ num_asks_within_depth (map fst asks) (max_ask ba d) = length asks)
            (convert depths)).
  { unfold convert. apply Forall_forall. intros d' Hin.
    apply in_map_iff in Hin. destruct Hin as (d & <- & Hin).
    rewrite Forall_forall in Hd.
    pose proof (Band.div_bps_gt_one d (Hd d Hin)) as H1.
    pose proof (Band.mul_pos_signed bb _ Fbb Pbb (Band.one_sub_signed _ H1)) as Hs.
    fold (min_bid bb (d / Np.bps)) in Hs.
    split; [exact H1|]. split; [apply Band.signed_nonpos; exact Hs|]. split.
    - unfold num_bids_within_depth. rewrite filter_all; [apply length_map|].
      apply Forall_forall. intros p Hp. unfold Np.geb.
      apply Band.signed_le_pos; [exact Hs|]. apply (Hbids p Hp).
    - unfold num_asks_within_depth. rewrite filter_all; [apply length_map|].
      apply Forall_forall. intros p Hp. destruct (Hasks p Hp) as (Pp & Fp & Hp2).
      unfold max_ask. apply Band.ask_within; assumption. }
  assert (Hx : Np.map_each (imbalance bids asks bb ba) (convert depths)
               = Ok (repeat c (length depths))).
  { replace (length depths) with (length (convert depths))
      by (unfold convert; apply length_map).
    apply map_each_const. intros d Hin.
    rewrite Forall_forall in Hsat. destruct (Hsat d Hin) as (_ & _ & Nb & Na).
    unfold imbalance, total_bid_size_within_depth, total_ask_size_within_depth.
    rewrite Nb, Na.
    rewrite <- (length_map snd bids) at 1. rewrite <- (length_map snd asks) at 1.
    rewrite !firstn_all. unfold Np.truediv. rewrite Hta. reflexivity. }
  split; [exact Hsat|]. split; [exact Hx|].
  rewrite (orderbook_imbalance_eq bids asks depths ws _ bb ba Hw Hb Ha Hx).
  rewrite <- Hlen, mul_repeat. reflexivity.
Qed.

Lemma saturated_depths_witness :
  orderbook_imbalance (ext := Reference.externals) bids5 asks5 depths5
  = Ok (Np.sum (map (fun w => Reference.log_tangent (2.125 / 2.625) * w)
                    [0.5; 0.25; 0.125; 0.0625; 0.0625])).
Proof.
  refine (proj2 (proj2 (saturated_depths (ext := Reference.externals)
                          bids5 asks5 depths5
                          [0.5; 0.25; 0.125; 0.0625; 0.0625] 100 101
                          eq_refl eq_refl _ _ _ eq_refl eq_refl eq_refl))).
  - repeat constructor.
  - repeat constructor.
  - repeat constructor.
Defined.

(** The claim of C9 fails twice.  With depth [2^-13 > 1e-4] the converted
    depth is above [1.0] and [max_ask = 224.29...], below the second ask at
    [300.0], which is not counted: the imbalance is [ln(3/1)], not
    [ln(3/3)].  And with every level counted, the float64 sum of [c * w_i] is
    not [c] times the sum of the weights: [-0.8333333333333333] against
    [-0.8333333333333334]. *)
Lemma far_ask_not_counted :
  ((Np.bps <? 0x1p-13) = true
   /\ (1 <? 0x1p-13 / Np.bps) = true
   /\ (max_ask 101 (0x1p-13 / Np.bps) <? 300) = true
   /\ num_asks_within_depth [101; 300] (max_ask 101 (0x1p-13 / Np.bps)) = 1%nat
   /\ orderbook_imbalance (ext := Reference.externals)
                          [(100, 1); (99, 2)] [(101, 1); (300, 2)] [0x1p-13]
      = Ok (Reference.log_tangent (3 / 1) * 1)
   /\ Reference.log_tangent (3 / 1) * 1 = 2
   /\ Reference.log_tangent (3 / 3) * 1 = 0)
  /\ (orderbook_imbalance (ext := Reference.externals)
                          [(100, 0.5)] [(101, 3)] [10; 20; 30; 40]
      = Ok (-0x1.aaaaaaaaaaaaap-1)
      /\ Reference.log_tangent (0.5 / 3) * Np.sum [0.5; 0.25; 0.125; 0.125]
         = -0x1.aaaaaaaaaaaabp-1).
Proof. repeat split; reflexivity. Qed.
End OrderBookTheory.

(** ** The two calls side by side *)

Module Calls.
Import OrderBook Trades TradesTheory OrderBookTheory.
Open Scope float_scope.

Lemma step_agree (e1 e2 : Externals) (trades : list trade) (ws : list float)
      (delta : float * float) (i : nat) :
  (forall x, @np_log e1 x = @np_log e2 x) ->
  (forall a j, @stray e1 a j = @stray e2 a j) ->
  @step e1 trades ws delta i = @step e2 trades ws delta i.
Proof.
  intros Hlog Hmem. unfold step, trade_side, weighted_qty, Np.getitem.
  rewrite !Hmem, Hlog. reflexivity.
Qed.

Lemma fold_agree {S X : Type} (f g : S -> X -> S) (xs : list X) :
  (forall a x, f a x = g a x) ->
  forall acc, fold_left f xs acc = fold_left g xs acc.
Proof.
  intros H. induction xs as [|x xs IH]; intros acc; simpl; [reflexivity|].
  rewrite H. apply IH.
Qed.

Lemma window_rows_nth (trades : list trade) (ws : list float) (window : Z)
      (i : nat) (t : trade) (w : float) :
  nth_error trades i = Some t -> nth_error ws i = Some w ->
  (Z.of_nat i < effective_window trades window)%Z ->
  nth_error (window_rows trades ws window) i = Some (t, w).
Proof.
  intros Et Ew Hi. unfold window_rows.
  set (n := Z.to_nat (effective_window trades window)).
  assert (Hn : (i < n)%nat) by lia. clearbody n. clear Hi.
  revert trades ws n Et Ew Hn.
  induction i as [|i IH]; intros [|t' trades] [|w' ws] [|n] Et Ew Hn;
    try discriminate; try lia.
  - injection Et as ->. injection Ew as ->. reflexivity.
  - cbn [firstn combine nth_error]. apply IH; [exact Et|exact Ew|lia].
Qed.

(** C8: [trades_imbalance] asks the generator for [effective_window]
    weights in the reversed ordering and for nothing else; its result is the
    normalised difference of the totals accumulated over the rows of the
    effective window, the trade at index [i] being multiplied by the weight
    at index [i], so with weights that increase with the index the trade at
    the highest index of the effective window gets the greatest weight.
    [orderbook_imbalance] asks for one weight per depth in the forward
    ordering and for nothing else; its result is the sum of the products of
    the imbalance of depth [i] and the weight at index [i], depth [0] with
    the first weight. *)
Theorem weights_direction :
  (forall (ext : Externals) trades window,
      (forall e,
          ema_weights (effective_window trades window) true = Raise e ->
          trades_imbalance trades window = Raise e)
      /\ (forall ws,
            ema_weights (effective_window trades window) true = Ok ws ->
            (Z.to_nat (effective_window trades window) <= length ws)%nat ->
            let delta :=
              fold_left add_trade (window_rows trades ws window) (0, 0) in
            trades_imbalance trades window
            = Np.truediv (fst delta - snd delta) (fst delta + snd delta)))
  /\ (forall (ext : Externals) trades window ws i t w,
        ema_weights (effective_window trades window) true = Ok ws ->
        nth_error trades i = Some t -> nth_error ws i = Some w ->
        (Z.of_nat i < effective_window trades window)%Z ->
        nth_error (window_rows trades ws window) i = Some (t, w)
        /\ weighted_qty trades ws i = np_log (1 + size t) * w
        /\ (increasing ws ->
            forall last w_last,
              Z.of_nat last = (effective_window trades window - 1)%Z ->
              nth_error ws last = Some w_last ->
              (w <=? w_last) = true))
  /\ (forall e1 e2 trades window,
        agree_on true e1 e2 ->
        @trades_imbalance e1 trades window = @trades_imbalance e2 trades window)
  /\ (forall e1 e2 bids asks depths,
        agree_on false e1 e2 ->
        @orderbook_imbalance e1 bids asks depths
        = @orderbook_imbalance e2 bids asks depths)
  /\ (forall (ext : Externals) bids asks depths ws xs bb ba,
        ema_weights (Z.of_nat (length depths)) false = Ok ws ->
        length ws = length depths ->
        nth_error (map fst bids) 0 = Some bb ->
        nth_error (map fst asks) 0 = Some ba ->
        Np.map_each (imbalance bids asks bb ba) (convert depths) = Ok xs ->
        length xs = length depths
        /\ orderbook_imbalance bids asks depths
           = Ok (Np.sum (map (fun xw => fst xw * snd xw) (combine xs ws)))).
Proof.
  split; [|split; [|split; [|split]]].
  - intros ext trades window. split.
    + intros e He. unfold trades_imbalance.
      fold (effective_window trades window). rewrite He. reflexivity.
    + intros ws Hw Hlen. apply (trades_imbalance_eq trades window ws Hw Hlen).
  - intros ext trades window ws i t w Hw Et Ew Hi. split; [|split].
    + apply window_rows_nth; assumption.
    + unfold weighted_qty, Np.getitem.
      rewrite column_read, Et, (nth_error_nth ws i _ Ew). reflexivity.
    + intros Hinc last w_last Hlast Elast.
      apply (Hinc i last w w_last); [lia|exact Ew|exact Elast].
  - intros e1 e2 trades window (Hlog & Hmem & Hgen). unfold trades_imbalance.
    rewrite Hgen.
    destruct (@ema_weights e2 _ true) as [ws|e]; [|reflexivity]. cbn [bind].
    unfold totals.
    rewrite (fold_agree (@step e1 trades ws) (@step e2 trades ws));
      [reflexivity|].
    intros a x. apply step_agree; assumption.
  - intros e1 e2 bids asks depths (Hlog & Hmem & Hgen).
    unfold orderbook_imbalance. rewrite Hgen.
    destruct (@ema_weights e2 _ false) as [ws|e]; [|reflexivity]. cbn [bind].
    unfold Np.getitem. rewrite !Hmem. cbv zeta.
    apply (f_equal (fun r => bind r _)).
    apply map_each_ext. intros d _. unfold imbalance.
    destruct (Np.truediv _ _) as [r|e]; [|reflexivity]. cbn [bind].
    rewrite Hlog. reflexivity.
  - intros ext bids asks depths ws xs bb ba Hw Hlen Hb Ha Hx.
    assert (Hlx : length xs = length depths).
    { clear - Hx. unfold convert in Hx. rewrite map_each_map in Hx.
      revert xs Hx. induction depths as [|d ds IH]; intros xs Hx; simpl in Hx.
      - injection Hx as <-. reflexivity.
      - destruct (imbalance bids asks bb ba (d / Np.bps)) as [y|e];
          [|discriminate]. cbn [bind] in Hx.
        destruct (Np.map_each _ ds) as [ys|e]; [|discriminate].
        cbn [bind] in Hx. injection Hx as <-. simpl. f_equal. apply IH.
        reflexivity. }
    split; [exact Hlx|].
    rewrite (orderbook_imbalance_eq bids asks depths ws xs bb ba Hw Hb Ha Hx).
    unfold Np.mul. rewrite Hlx, Hlen, Nat.eqb_refl. reflexivity.
Qed.

Lemma weights_direction_witness :
  nth_error (window_rows tape5 [0.0625; 0.0625; 0.125; 0.25; 0.5] 5) 4
  = Some (Trade 1e10 0 100.125 0.75, 0.5)
  /\ weighted_qty (ext := Reference.externals) tape5
                  [0.0625; 0.0625; 0.125; 0.25; 0.5] 4
     = Reference.log_tangent (1 + 0.75) * 0.5.
Proof.
  refine ((fun H => conj (proj1 H) (proj1 (proj2 H)))
            (proj1 (proj2 weights_direction) Reference.externals tape5 5%Z
                   [0.0625; 0.0625; 0.125; 0.25; 0.5] 4%nat
                   (Trade 1e10 0 100.125 0.75) 0.5
                   eq_refl eq_refl eq_refl _)).
  reflexivity.
Defined.

(** An empty side of the book: nothing is counted and nothing is summed,
    whatever the read of its best price finds. *)
Lemma empty_side_total (p d : float) :
  total_bid_size_within_depth [] [] p d = 0
  /\ total_ask_size_within_depth [] [] p d = 0.
Proof. split; reflexivity. Qed.

Lemma map_each_pure {X Y : Type} (f : X -> result Y) (g : X -> Y)
      (xs : list X) :
  (forall x, In x xs -> f x = Ok (g x)) ->
  Np.map_each f xs = Ok (map g xs).
Proof.
  induction xs as [|x xs IH]; intros H; cbn [Np.map_each map];
    [reflexivity|].
  rewrite (H x (or_introl eq_refl)), IH; [reflexivity|].
  intros y Hy. apply H. right. exact Hy.
Qed.

(** C2, as amended: neither function checks its arguments; each runs its
    body on them.  With empty [depths], [orderbook_imbalance] returns [0.0]
    whatever the book, empty or not (the generator returning at most one
    weight for length 0).  With empty [asks] and a depth, it raises the
    [ZeroDivisionError] of its first division.  With empty [bids], every
    bid total is [0.0] and it returns the weighted sum of
    [np.log(0.0 / ask total)] when no ask total is zero.  With a
    non-positive [window], [trades_imbalance] returns no value, and the
    exception is the [ZeroDivisionError] of its final division [0.0 / 0.0]
    unless the generator raised first. *)
Theorem no_validation {ext : Externals} :
  (forall bids asks ws,
      ema_weights 0 false = Ok ws -> (length ws <= 1)%nat ->
      orderbook_imbalance bids asks [] = Ok 0)
  /\ (forall bids d depths ws,
        ema_weights (Z.of_nat (length (d :: depths))) false = Ok ws ->
        orderbook_imbalance bids [] (d :: depths) = Raise ZeroDivisionError)
  /\ (forall asks depths ws,
        ema_weights (Z.of_nat (length depths)) false = Ok ws ->
        length ws = length depths ->
        let ba := Np.getitem (stray Ask_p) (map fst asks) 0 in
        Forall (fun d => (ask_total asks ba d =? 0) = false) depths ->
        orderbook_imbalance [] asks depths
        = Ok (Np.sum (map (fun xw => fst xw * snd xw)
                          (combine
                             (map (fun d => np_log (0 / ask_total asks ba d))
                                  depths)
                             ws))))
  /\ (forall trades window,
        (window <= 0)%Z ->
        raises (trades_imbalance trades window)
        /\ (returns (ema_weights (effective_window trades window) true) ->
            trades_imbalance trades window = Raise ZeroDivisionError)).
Proof.
  split; [|split; [|split]].
  - intros bids asks ws Hw Hlen. unfold orderbook_imbalance.
    cbn [length Z.of_nat convert map]. rewrite Hw. cbn [bind Np.map_each].
    destruct ws as [|w [|w' ws]]; [reflexivity|reflexivity|simpl in Hlen; lia].
  - intros bids d depths ws Hw. unfold orderbook_imbalance.
    rewrite Hw. cbn [bind]. cbv zeta.
    cbn [convert map Np.map_each]. unfold imbalance at 1.
    cbn [map]. rewrite (proj2 (empty_side_total _ _)).
    unfold Np.truediv. reflexivity.
  - intros asks depths ws Hw Hlen ba Hall. unfold orderbook_imbalance.
    rewrite Hw. cbn [bind]. cbv zeta. fold ba.
    unfold convert. rewrite map_each_map.
    rewrite (map_each_pure _ (fun d => np_log (0 / ask_total asks ba d))).
    + cbn [bind]. unfold Np.mul.
      rewrite length_map, Hlen, Nat.eqb_refl. reflexivity.
    + intros d Hin. rewrite Forall_forall in Hall. specialize (Hall d Hin).
      unfold imbalance. cbn [map].
      rewrite (proj1 (empty_side_total _ _)).
      unfold ask_total in Hall |- *. unfold Np.truediv. rewrite Hall.
      reflexivity.
  - intros trades window Hle.
    assert (He : (effective_window trades window <= 0)%Z)
      by (unfold effective_window; lia).
    destruct (ema_weights (effective_window trades window) true)
      as [ws|e] eqn:Hw.
    + pose proof (empty_window_raises trades window ws Hw He) as H.
      split; [exists ZeroDivisionError; exact H|intros _; exact H].
    + split.
      * exists e. unfold trades_imbalance.
        fold (effective_window trades window). rewrite Hw. reflexivity.
      * intros [a Ha]. discriminate Ha.
Qed.

(** The claim of C2 fails for empty [depths] and for empty [bids]: the
    call returns a number, [0.0] for empty [depths] whatever the book. *)
Lemma empty_inputs_return :
  orderbook_imbalance (ext := Reference.externals) bids5 asks5 [] = Ok 0
  /\ orderbook_imbalance (ext := Reference.externals) [] [] [] = Ok 0
  /\ returns (orderbook_imbalance (ext := Reference.externals)
                                  [] asks5 depths5)
  /\ ~ raises (orderbook_imbalance (ext := Reference.externals) bids5 asks5 [])
  /\ ~ raises (orderbook_imbalance (ext := Reference.externals)
                                   [] asks5 depths5).
Proof.
  repeat split; try reflexivity.
  - eexists. reflexivity.
  - intros [e He]. discriminate He.
  - intros [e He]. discriminate He.
Qed.
End Calls.

(** ** Further properties of the trade-flow imbalance *)

Module TradesProperties.
Import Binary64 Laws Trades TradesTheory.
Open Scope float_scope.

(** *** The rows that are read *)

Lemma nth_error_app_prefix {A : Type} (pre r1 r2 : list A) (i : nat) :
  (i < length pre)%nat -> nth_error (pre ++ r1) i = nth_error (pre ++ r2) i.
Proof.
  intros H. rewrite !nth_error_app1 by exact H. reflexivity.
Qed.

(** X1: the loop reads the rows [0 .. window-1] of the tape.  Whatever
    follows the first [window] rows, and however many rows follow, the result
    is the same. *)
Theorem later_rows_ignored {ext : Externals}
        (pre r1 r2 : list trade) (window : Z) :
  (window <= Z.of_nat (length pre))%Z ->
  trades_imbalance (pre ++ r1) window = trades_imbalance (pre ++ r2) window.
Proof.
  intros Hle. unfold trades_imbalance.
  rewrite !length_app, !Nat2Z.inj_add.
  replace (Z.min window (Z.of_nat (length pre) + Z.of_nat (length r1)))
    with window by lia.
  replace (Z.min window (Z.of_nat (length pre) + Z.of_nat (length r2)))
    with window by lia.
  destruct (ema_weights window true) as [ws|e]; [|reflexivity].
  cbn [bind]. unfold totals.
  rewrite (fold_columns (pre ++ r1) (pre ++ r2) ws); [reflexivity|].
  intros i Hi. apply in_seq in Hi.
  rewrite (nth_error_app_prefix pre r1 r2 i) by lia. reflexivity.
Qed.

Lemma later_rows_ignored_witness :
  trades_imbalance (ext := Reference.externals)
                   (firstn 2 tape5 ++ skipn 2 tape5) 2
  = trades_imbalance (ext := Reference.externals) (firstn 2 tape5 ++ []) 2.
Proof.
  apply (later_rows_ignored (ext := Reference.externals)
           (firstn 2 tape5) (skipn 2 tape5) [] 2).
  simpl. lia.
Defined.

(** *** Exchanging the two sides *)

Lemma step_swap {ext : Externals} (trades : list trade) (ws : list float)
      (b s : float) (i : nat) :
  (i < length trades)%nat ->
  step (map swap_side trades) ws (s, b) i
  = (snd (step trades ws (b, s) i), fst (step trades ws (b, s) i)).
Proof.
  intros Hi. unfold step, trade_side, weighted_qty, Np.getitem.
  rewrite !map_map, !column_read.
  destruct (nth_error trades i) as [t|] eqn:Et;
    [|apply nth_error_None in Et; lia].
  cbn [swap_side side size].
  destruct (side t =? 0); reflexivity.
Qed.

Lemma fold_swap {ext : Externals} (trades : list trade) (ws : list float)
      (idx : list nat) :
  Forall (fun i => (i < length trades)%nat) idx ->
  forall b s,
    fold_left (step (map swap_side trades) ws) idx (s, b)
    = (snd (fold_left (step trades ws) idx (b, s)),
       fst (fold_left (step trades ws) idx (b, s))).
Proof.
  induction 1 as [|i idx Hi _ IH]; intros b s; [reflexivity|].
  cbn [fold_left]. rewrite (step_swap trades ws b s i Hi).
  destruct (step trades ws (b, s) i) as [b' s']. cbn [fst snd]. apply IH.
Qed.

(** X2: turning every buy of a tape into a sell and every sell into a
    buy exchanges the two totals, so the result changes sign: the new result
    is the negation of the old one, or both are the same zero when the two
    totals are equal.  An exception is raised on the one tape exactly when
    it is raised on the other. *)
Theorem swapped_sides_negate {ext : Externals}
        (trades : list trade) (window : Z) :
  match trades_imbalance trades window with
  | Ok r =>
      exists r', trades_imbalance (map swap_side trades) window = Ok r'
                 /\ (r' = - r \/ (r' = r /\ Binary64.zero r))
  | Raise e => trades_imbalance (map swap_side trades) window = Raise e
  end.
Proof.
  unfold trades_imbalance. rewrite length_map.
  destruct (ema_weights _ true) as [ws|e]; [|reflexivity].
  cbn [bind]. unfold totals. rewrite (fold_swap trades ws _) with (b := 0).
  2:{ apply Forall_forall. intros i Hi. apply in_seq in Hi. lia. }
  destruct (fold_left (step trades ws) _ (0, 0)) as [b s].
  cbn [fst snd]. unfold Np.truediv. rewrite (add_comm s b).
  destruct (b + s =? 0) eqn:Hz; [reflexivity|].
  exists ((s - b) / (b + s)). split; [reflexivity|].
  destruct (sub_swap b s) as [H|[H1 H2]].
  - left. rewrite H. apply div_opp.
  - right. rewrite H1, H2. split; [reflexivity|].
    apply balanced_ratio; assumption.
Qed.

(** *** The sign of the result *)

(** With sizes and weights [>= 0] and a logarithm that is [>= 0] from
    [1.0] on, neither total is ever negative. *)
Lemma totals_nonneg {ext : Externals}
      (trades : list trade) (n : nat) (ws : list float) :
  Forall (fun t => (0 <=? size t) = true) trades ->
  (forall x, (1 <=? x) = true -> (0 <=? np_log x) = true) ->
  Forall (fun w => (0 <=? w) = true) ws ->
  let delta := fold_left add_trade
                         (combine (firstn n trades) (firstn n ws)) (0, 0) in
  nonneg_or_nan (fst delta) /\ nonneg_or_nan (snd delta).
Proof.
  intros Hsz Hlog Hws delta. subst delta.
  apply fold_nonneg; try (left; reflexivity).
  apply Forall_forall. intros [t w] Hin. cbn [fst snd].
  apply Sign.mul_nonneg.
  - apply Hlog. apply Sign.one_add_ge.
    apply in_combine_l in Hin. apply Lists.In_firstn in Hin.
    rewrite Forall_forall in Hsz. apply Hsz. exact Hin.
  - apply in_combine_r in Hin. apply Lists.In_firstn in Hin.
    rewrite Forall_forall in Hws. apply Hws. exact Hin.
Qed.

(** X3: under the conditions of the range (sizes and weights [>= 0], a
    logarithm [>= 0] from [1.0] on, finite totals that are not both zero) the
    sign of the result follows the larger total: it is [>= 0] when the buy
    total is at least the sell total, and [<= 0] when the sell total is at
    least the buy total. *)
Theorem dominant_side_sign {ext : Externals}
        (trades : list trade) (window : Z) (ws : list float) (b s : float) :
  Forall (fun t => (0 <=? size t) = true) trades ->
  (forall x, (1 <=? x) = true -> (0 <=? np_log x) = true) ->
  ema_weights (effective_window trades window) true = Ok ws ->
  (Z.to_nat (effective_window trades window) <= length ws)%nat ->
  Forall (fun w => (0 <=? w) = true) ws ->
  totals trades ws (effective_window trades window) = (b, s) ->
  Binary64.finite b -> Binary64.finite s ->
  (b + s =? 0) = false ->
  exists r, trades_imbalance trades window = Ok r
            /\ ((s <=? b) = true -> (0 <=? r) = true)
            /\ ((b <=? s) = true -> (r <=? 0) = true).
Proof.
  intros Hsz Hlog Hw Hlen Hws Ht Fb Fs Hnz.
  assert (Hfold := totals_fold trades ws (effective_window trades window)
                     ltac:(unfold effective_window; lia) Hlen).
  rewrite Ht in Hfold.
  destruct (totals_nonneg trades (Z.to_nat (effective_window trades window)) ws
              Hsz Hlog Hws) as [Hb Hs].
  rewrite <- Hfold in Hb, Hs. cbn [fst snd] in Hb, Hs.
  pose proof (Sign.finite_nonneg b Fb Hb) as Nb.
  pose proof (Sign.finite_nonneg s Fs Hs) as Ns.
  exists ((b - s) / (b + s)). split.
  - unfold trades_imbalance. fold (effective_window trades window).
    rewrite Hw. cbn [bind]. rewrite Ht.
    unfold Np.truediv. rewrite Hnz. reflexivity.
  - apply ratio_sign; assumption.
Qed.

Lemma dominant_side_sign_witness :
  exists r, trades_imbalance (ext := Reference.externals) tape5 5 = Ok r
            /\ ((0.0703125 <=? 0.53125) = true -> (0 <=? r) = true)
            /\ ((0.53125 <=? 0.0703125) = true -> (r <=? 0) = true).
Proof.
  apply (dominant_side_sign (ext := Reference.externals) tape5 5
           [0.0625; 0.0625; 0.125; 0.25; 0.5] 0.53125 0.0703125).
  - repeat constructor.
  - intros x. apply Sign.sub_one_nonneg.
  - reflexivity.
  - simpl. lia.
  - repeat constructor.
  - reflexivity.
  - reflexivity.
  - reflexivity.
  - reflexivity.
Defined.

(** *** A NaN size *)

Lemma nth_error_combine {A B : Type} (l1 : list A) (l2 : list B) (i : nat)
      (a : A) (b : B) :
  nth_error l1 i = Some a -> nth_error l2 i = Some b ->
  nth_error (combine l1 l2) i = Some (a, b).
Proof.
  revert l1 l2. induction i as [|i IH]; intros [|x l1] [|y l2] H1 H2;
    try discriminate.
  - injection H1 as ->. injection H2 as ->. reflexivity.
  - apply IH; assumption.
Qed.

Lemma nth_error_firstn_lt {A : Type} (l : list A) (n i : nat) :
  (i < n)%nat -> nth_error (firstn n l) i = nth_error l i.
Proof.
  revert l i. induction n as [|n IH]; intros l i H; [lia|].
  destruct l as [|x l]; [reflexivity|].
  destruct i as [|i]; [reflexivity|]. simpl. apply IH. lia.
Qed.

Lemma add_trade_keeps_nan {ext : Externals}
      (d : float * float) (tw : trade * float) :
  some_nan d -> some_nan (add_trade d tw).
Proof.
  unfold some_nan, add_trade. intros [H|H];
    destruct (side (fst tw) =? 0); cbn [fst snd]; auto.
  - left. apply nan_absorbs. left. exact H.
  - right. apply nan_absorbs. left. exact H.
Qed.

Lemma add_trade_nan {ext : Externals} (d : float * float) (tw : trade * float) :
  is_nan (np_log (1 + size (fst tw))) = true -> some_nan (add_trade d tw).
Proof.
  intros H. unfold some_nan, add_trade.
  assert (Hq : is_nan (np_log (1 + size (fst tw)) * snd tw) = true)
    by (apply nan_absorbs; left; exact H).
  destruct (side (fst tw) =? 0); cbn [fst snd];
    [left|right]; apply nan_absorbs; right; exact Hq.
Qed.

Lemma fold_keeps_nan {ext : Externals}
      (l : list (trade * float)) (d : float * float) :
  some_nan d -> some_nan (fold_left add_trade l d).
Proof.
  revert d. induction l as [|tw l IH]; intros d H; [exact H|].
  cbn [fold_left]. apply IH. apply add_trade_keeps_nan. exact H.
Qed.

Lemma fold_nan {ext : Externals}
      (l : list (trade * float)) (d : float * float) (tw : trade * float) :
  In tw l -> is_nan (np_log (1 + size (fst tw))) = true ->
  some_nan (fold_left add_trade l d).
Proof.
  revert d. induction l as [|x l IH]; intros d Hin H; [destruct Hin|].
  destruct Hin as [E|Hin].
  - subst x. cbn [fold_left]. apply fold_keeps_nan. apply add_trade_nan. exact H.
  - cbn [fold_left]. apply IH; assumption.
Qed.

(** X4: when [np.log] maps NaN to NaN, one NaN size inside the effective
    window makes the result NaN, whatever its weight and side: the call
    returns, it does not raise. *)
Theorem nan_size_gives_nan {ext : Externals}
        (trades : list trade) (window : Z) (ws : list float)
        (i : nat) (t : trade) :
  (forall x, is_nan x = true -> is_nan (np_log x) = true) ->
  ema_weights (effective_window trades window) true = Ok ws ->
  (Z.to_nat (effective_window trades window) <= length ws)%nat ->
  nth_error trades i = Some t ->
  (Z.of_nat i < effective_window trades window)%Z ->
  is_nan (size t) = true ->
  exists r, trades_imbalance trades window = Ok r /\ is_nan r = true.
Proof.
  intros Hlog Hw Hlen Ht Hi Hnan.
  rewrite (trades_imbalance_eq trades window ws Hw Hlen). cbv zeta.
  set (n := Z.to_nat (effective_window trades window)) in *.
  destruct (nth_error ws i) as [w|] eqn:Ew;
    [|apply nth_error_None in Ew; lia].
  assert (Hin : In (t, w) (combine (firstn n trades) (firstn n ws))).
  { apply (nth_error_In _ i). apply nth_error_combine;
      rewrite nth_error_firstn_lt by lia; assumption. }
  pose proof (fold_nan _ (0, 0) (t, w) Hin) as Hd. cbn [fst] in Hd.
  specialize (Hd (Hlog _ (proj1 (nan_absorbs 1 (size t) (or_intror Hnan))))).
  destruct (fold_left add_trade _ (0, 0)) as [b s]. cbn [fst snd].
  unfold some_nan in Hd. cbn [fst snd] in Hd.
  unfold Np.truediv.
  rewrite (nan_nonzero (b + s)) by (apply nan_absorbs; exact Hd).
  exists ((b - s) / (b + s)). split; [reflexivity|].
  apply nan_absorbs. left. apply nan_absorbs. exact Hd.
Qed.

Lemma nan_size_gives_nan_witness :
  exists r, trades_imbalance (ext := Reference.externals)
              [Trade 1e10 0 100.5 0.5; Trade 1e10 1 100.25 nan] 2 = Ok r
            /\ is_nan r = true.
Proof.
  apply (nan_size_gives_nan (ext := Reference.externals)
           [Trade 1e10 0 100.5 0.5; Trade 1e10 1 100.25 nan] 2 [0.5; 0.5]
           1 (Trade 1e10 1 100.25 nan)).
  - intros x Hx. apply (nan_absorbs x 1). left. exact Hx.
  - reflexivity.
  - simpl. lia.
  - reflexivity.
  - reflexivity.
  - reflexivity.
Defined.
End TradesProperties.

(** ** Further properties of the order-book imbalance *)

Module OrderBookProperties.
Import Binary64 Laws OrderBook OrderBookTheory.
Open Scope float_scope.

(** *** When the call raises *)

Lemma map_each_raise {X Y : Type} (f : X -> result Y) (e0 : exn) (xs : list X) :
  (forall x e, f x = Raise e -> e = e0) ->
  Exists (fun x => f x = Raise e0) xs ->
  Np.map_each f xs = Raise e0.
Proof.
  intros Hf. induction 1 as [x xs Hx|x xs Hx IH]; cbn [Np.map_each].
  - rewrite Hx. reflexivity.
  - destruct (f x) as [y|e] eqn:E.
    + cbn [bind]. rewrite IH. reflexivity.
    + rewrite (Hf x e E). reflexivity.
Qed.

Lemma map_each_ok {X Y : Type} (f : X -> result Y) (xs : list X) :
  Forall (fun x => exists y, f x = Ok y) xs ->
  exists ys, Np.map_each f xs = Ok ys /\ length ys = length xs.
Proof.
  induction 1 as [|x xs [y Hy] Hxs [ys [IH Hlen]]]; cbn [Np.map_each].
  - exists []. split; reflexivity.
  - rewrite Hy, IH. exists (y :: ys). split; [reflexivity|].
    simpl. rewrite Hlen. reflexivity.
Qed.

Lemma imbalance_raise {ext : Externals}
      (bids asks : side_t) (bb ba d : float) (e : exn) :
  imbalance bids asks bb ba d = Raise e -> e = ZeroDivisionError.
Proof.
  unfold imbalance, Np.truediv.
  destruct (_ =? 0); cbn [bind]; intros H; [|discriminate H].
  injection H as <-. reflexivity.
Qed.

Lemma imbalance_zero_ask {ext : Externals}
      (bids asks : side_t) (bb ba d : float) :
  (ask_total asks ba d =? 0) = true ->
  imbalance bids asks bb ba (d / Np.bps) = Raise ZeroDivisionError.
Proof.
  unfold ask_total, imbalance, Np.truediv. intros H. rewrite H. reflexivity.
Qed.

Lemma imbalance_nonzero_ask {ext : Externals}
      (bids asks : side_t) (bb ba d : float) :
  (ask_total asks ba d =? 0) = false ->
  exists y, imbalance bids asks bb ba (d / Np.bps) = Ok y.
Proof.
  unfold ask_total, imbalance, Np.truediv. intros H. rewrite H.
  cbn [bind]. eexists. reflexivity.
Qed.

Lemma some_zero_ask_raises {ext : Externals}
      (bids asks : side_t) (depths ws : list float)
      (bb ba : float) :
  ema_weights (Z.of_nat (length depths)) false = Ok ws ->
  nth_error (map fst bids) 0 = Some bb ->
  nth_error (map fst asks) 0 = Some ba ->
  Exists (fun d => (ask_total asks ba d =? 0) = true) depths ->
  orderbook_imbalance bids asks depths = Raise ZeroDivisionError.
Proof.
  intros Hw Hb Ha Hex. unfold orderbook_imbalance.
  rewrite Hw. cbn [bind].
  rewrite (Lists.getitem_in_range _ _ _ _ Hb).
  rewrite (Lists.getitem_in_range _ _ _ _ Ha).
  cbv zeta. unfold convert. rewrite map_each_map.
  rewrite (map_each_raise _ ZeroDivisionError); [reflexivity| |].
  - intros d e. apply imbalance_raise.
  - apply Exists_exists. apply Exists_exists in Hex.
    destruct Hex as (d & Hin & Hd). exists d. split; [exact Hin|].
    apply imbalance_zero_ask. exact Hd.
Qed.

Lemma no_zero_ask_returns {ext : Externals}
      (bids asks : side_t) (depths ws : list float)
      (bb ba : float) :
  ema_weights (Z.of_nat (length depths)) false = Ok ws ->
  length ws = length depths ->
  nth_error (map fst bids) 0 = Some bb ->
  nth_error (map fst asks) 0 = Some ba ->
  Forall (fun d => (ask_total asks ba d =? 0) = false) depths ->
  exists r, orderbook_imbalance bids asks depths = Ok r.
Proof.
  intros Hw Hlen Hb Ha Hall.
  destruct (map_each_ok (fun d => imbalance bids asks bb ba (d / Np.bps)) depths)
    as (xs & Hxs & Hlx).
  { apply Forall_forall. rewrite Forall_forall in Hall. intros d Hin.
    apply imbalance_nonzero_ask. apply Hall. exact Hin. }
  rewrite (orderbook_imbalance_eq bids asks depths ws xs bb ba Hw Hb Ha).
  - unfold Np.mul. rewrite Hlx, Hlen, Nat.eqb_refl. cbn [bind].
    eexists. reflexivity.
  - unfold convert. rewrite map_each_map. exact Hxs.
Qed.

(** X5: once the generator has returned one weight per depth and both
    sides have a best price, the call raises exactly when the ask total of
    the band of some depth compares equal to zero, and the exception is
    [ZeroDivisionError]; when no ask total is zero it returns a value. *)
Theorem fails_on_zero_ask_total {ext : Externals}
        (bids asks : side_t) (depths ws : list float)
        (bb ba : float) :
  ema_weights (Z.of_nat (length depths)) false = Ok ws ->
  length ws = length depths ->
  nth_error (map fst bids) 0 = Some bb ->
  nth_error (map fst asks) 0 = Some ba ->
  (Exists (fun d => (ask_total asks ba d =? 0) = true) depths ->
   orderbook_imbalance bids asks depths = Raise ZeroDivisionError)
  /\ (Forall (fun d => (ask_total asks ba d =? 0) = false) depths ->
      exists r, orderbook_imbalance bids asks depths = Ok r).
Proof.
  intros Hw Hlen Hb Ha. split.
  - apply (some_zero_ask_raises bids asks depths ws bb ba Hw Hb Ha).
  - apply (no_zero_ask_returns bids asks depths ws bb ba Hw Hlen Hb Ha).
Qed.

(** A NaN best ask price, or a NaN depth, empties the ask band. *)
Lemma nan_band_total (asks : side_t) (ba d : float) :
  is_nan ba = true \/ is_nan d = true -> ask_total asks ba d = 0.
Proof.
  intros H. unfold ask_total, total_ask_size_within_depth,
              num_asks_within_depth, max_ask.
  assert (Hn : is_nan (ba * (1 + d / Np.bps)) = true).
  { destruct H as [H|H].
    - apply nan_absorbs. left. exact H.
    - apply nan_absorbs. right. apply nan_absorbs. right.
      apply nan_absorbs. left. exact H. }
  replace (filter _ (map fst asks)) with (@nil float); [reflexivity|].
  symmetry. induction (map fst asks) as [|p l IH]; [reflexivity|].
  cbn [filter]. rewrite (leb_nan_r p _ Hn). exact IH.
Qed.

(** X6: a NaN on the ask side is not propagated.  When the best ask price
    is NaN (and there is a depth), or when some depth is NaN, no ask is
    inside that band, its ask total is [0.0], and the call raises
    [ZeroDivisionError]. *)
Theorem nan_ask_or_depth_raises {ext : Externals}
        (bids asks : side_t) (depths ws : list float)
        (bb ba : float) :
  ema_weights (Z.of_nat (length depths)) false = Ok ws ->
  nth_error (map fst bids) 0 = Some bb ->
  nth_error (map fst asks) 0 = Some ba ->
  (is_nan ba = true /\ depths <> [])
  \/ Exists (fun d => is_nan d = true) depths ->
  orderbook_imbalance bids asks depths = Raise ZeroDivisionError.
Proof.
  intros Hw Hb Ha H.
  apply (some_zero_ask_raises bids asks depths ws bb ba Hw Hb Ha).
  destruct H as [[Hn Hne]|Hex].
  - destruct depths as [|d ds]; [contradiction|].
    apply Exists_cons_hd. rewrite nan_band_total by (left; exact Hn).
    reflexivity.
  - apply Exists_exists in Hex. destruct Hex as (d & Hin & Hd).
    apply Exists_exists. exists d. split; [exact Hin|].
    rewrite nan_band_total by (right; exact Hd). reflexivity.
Qed.

Lemma fails_on_zero_ask_total_witness :
  orderbook_imbalance (ext := Reference.externals) bids5 [(101, 0)] [10]
  = Raise ZeroDivisionError.
Proof.
  refine (proj1 (fails_on_zero_ask_total (ext := Reference.externals)
                   bids5 [(101, 0)] [10] [1] 100 101
                   eq_refl eq_refl eq_refl eq_refl) _).
  apply Exists_cons_hd. reflexivity.
Defined.

Lemma nan_ask_or_depth_raises_witness :
  orderbook_imbalance (ext := Reference.externals) bids5 asks5 [10; nan]
  = Raise ZeroDivisionError.
Proof.
  apply (nan_ask_or_depth_raises (ext := Reference.externals)
           bids5 asks5 [10; nan] [0.5; 0.5] 100 101); try reflexivity.
  right. apply Exists_cons_tl, Exists_cons_hd. reflexivity.
Defined.

(** *** The top of the book *)

Lemma fold_add_pos (l : list float) (a : float) :
  (0 <? a) = true -> Forall (fun q => (0 <=? q) = true) l ->
  (0 <? fold_left add l a) = true.
Proof.
  revert a. induction l as [|q l IH]; intros a Ha Hl; [exact Ha|].
  inversion Hl as [|x l' Hq Hl']; subst. cbn [fold_left].
  apply IH; [|exact Hl']. apply add_pos_nonneg; assumption.
Qed.

Lemma Forall_firstn_intro {A : Type} (P : A -> Prop) (n : nat) (l : list A) :
  Forall P l -> Forall P (firstn n l).
Proof.
  intros H. apply Forall_forall. intros x Hx.
  rewrite Forall_forall in H. apply H. apply (Lists.In_firstn _ _ _ Hx).
Qed.

(** The sum of a non-empty prefix of quantities [>= 0] whose first one is
    positive is positive. *)
Lemma sum_prefix_pos (qs : list float) (q0 : float) (n : nat) :
  (0 <? q0) = true -> Forall (fun q => (0 <=? q) = true) qs ->
  (1 <= n)%nat ->
  (0 <? Np.sum (firstn n (q0 :: qs))) = true.
Proof.
  intros H0 Hqs Hn. destruct n as [|k]; [lia|].
  unfold Np.sum. cbn [firstn fold_left].
  rewrite (zero_add q0 (F64.pos_nonzero q0 H0)).
  apply fold_add_pos; [exact H0|]. apply Forall_firstn_intro. exact Hqs.
Qed.

Lemma count_head {A : Type} (f : A -> bool) (x : A) (l : list A) :
  f x = true -> (1 <= length (filter f (x :: l)))%nat.
Proof. intros H. cbn [filter]. rewrite H. simpl. lia. Qed.

Lemma head_cons {A : Type} (l : list A) (x : A) :
  nth_error l 0 = Some x -> exists l', l = x :: l'.
Proof.
  destruct l as [|y l]; simpl; [discriminate|].
  intros H. injection H as ->. eauto.
Qed.

Lemma best_ask_counted (ask_p : list float) (ba d : float) :
  nth_error ask_p 0 = Some ba ->
  is_finite ba = true -> (0 <? ba) = true -> (0 <=? d) = true ->
  (1 <= num_asks_within_depth ask_p (max_ask ba (d / Np.bps)))%nat.
Proof.
  intros Ha Fa Pa Nd. destruct (head_cons _ _ Ha) as [l ->].
  unfold num_asks_within_depth, max_ask. apply count_head.
  apply best_ask_within; trivial. apply div_bps_nonneg. exact Nd.
Qed.

Lemma best_bid_counted (bid_p : list float) (bb d : float) :
  nth_error bid_p 0 = Some bb ->
  is_finite bb = true -> (0 <? bb) = true -> (0 <=? d) = true ->
  (1 <= num_bids_within_depth bid_p (min_bid bb (d / Np.bps)))%nat.
Proof.
  intros Hb Fb Pb Nd. destruct (head_cons _ _ Hb) as [l ->].
  unfold num_bids_within_depth, min_bid, Np.geb. apply count_head.
  apply best_bid_within; trivial. apply div_bps_nonneg. exact Nd.
Qed.

(** X7: for finite positive best prices and every depth [>= 0], the best
    bid is not below [min_bid] and the best ask is not above [max_ask]: the
    top of the book is counted on both sides, so each total includes the
    quantity of the best level. *)
Theorem top_of_book_counted (bids asks : side_t) (bb ba d : float) :
  nth_error (map fst bids) 0 = Some bb ->
  nth_error (map fst asks) 0 = Some ba ->
  Binary64.finite bb -> (0 <? bb) = true ->
  Binary64.finite ba -> (0 <? ba) = true ->
  (0 <=? d) = true ->
  (1 <= num_bids_within_depth (map fst bids) (min_bid bb (d / Np.bps)))%nat
  /\ (1 <= num_asks_within_depth (map fst asks) (max_ask ba (d / Np.bps)))%nat.
Proof.
  intros Hb Ha Fb Pb Fa Pa Nd. split.
  - apply best_bid_counted; assumption.
  - apply best_ask_counted; assumption.
Qed.

Lemma top_of_book_counted_witness :
  (1 <= num_bids_within_depth (map fst bids5) (min_bid 100 (10 / Np.bps)))%nat
  /\ (1 <= num_asks_within_depth (map fst asks5)
                                 (max_ask 101 (10 / Np.bps)))%nat.
Proof.
  apply (top_of_book_counted bids5 asks5 100 101 10); reflexivity.
Defined.

(** X8: the call returns a value, and raises nothing, on every book whose
    best ask price is finite and positive, whose best ask quantity is
    positive and whose ask quantities are all [>= 0], for depths that are all
    [>= 0], once the generator has returned one weight per depth. *)
Theorem well_formed_book_returns {ext : Externals}
        (bids asks : side_t) (depths ws : list float)
        (bb ba qa : float) :
  ema_weights (Z.of_nat (length depths)) false = Ok ws ->
  length ws = length depths ->
  nth_error (map fst bids) 0 = Some bb ->
  nth_error asks 0 = Some (ba, qa) ->
  Binary64.finite ba -> (0 <? ba) = true -> (0 <? qa) = true ->
  Forall (fun row => (0 <=? snd row) = true) asks ->
  Forall (fun d => (0 <=? d) = true) depths ->
  exists r, orderbook_imbalance bids asks depths = Ok r.
Proof.
  intros Hw Hlen Hb Ha Fa Pa Pq Hqs Hds.
  destruct (head_cons _ _ Ha) as [rest ->].
  apply (no_zero_ask_returns bids ((ba, qa) :: rest) depths ws bb ba Hw Hlen Hb);
    [reflexivity|].
  apply Forall_forall. intros d Hin. rewrite Forall_forall in Hds.
  apply F64.pos_nonzero. unfold ask_total, total_ask_size_within_depth.
  cbn [map fst snd]. apply sum_prefix_pos.
  - exact Pq.
  - inversion Hqs as [|x l _ Hrest]; subst. clear - Hrest.
    induction Hrest as [|row l Hrow _ IH]; constructor; assumption.
  - apply (best_ask_counted (ba :: map fst rest) ba d); trivial.
    apply Hds. exact Hin.
Qed.

Lemma well_formed_book_returns_witness :
  exists r, orderbook_imbalance (ext := Reference.externals)
              bids5 asks5 depths5 = Ok r.
Proof.
  apply (well_formed_book_returns (ext := Reference.externals)
           bids5 asks5 depths5 [0.5; 0.25; 0.125; 0.0625; 0.0625] 100 101 0.75);
    try reflexivity.
  - repeat constructor.
  - repeat constructor.
Defined.

(** *** Sorted books *)

Lemma filter_none {A : Type} (f : A -> bool) (l : list A) :
  Forall (fun x => f x = false) l -> filter f l = [].
Proof.
  induction 1 as [|x l Hx _ IH]; [reflexivity|].
  cbn [filter]. rewrite Hx. exact IH.
Qed.

(** When the rows that pass a test on the price come first, the quantities
    of the first [count] rows are the quantities of the rows that pass. *)
Lemma prefix_is_filter (R : float -> float -> Prop) (f : float -> bool)
      (rows : side_t) :
  (forall p q, R p q -> f q = true -> f p = true) ->
  StronglySorted R (map fst rows) ->
  firstn (length (filter f (map fst rows))) (map snd rows)
  = map snd (filter (fun row => f (fst row)) rows).
Proof.
  intros Hf. induction rows as [|row rows IH]; intros Hs; [reflexivity|].
  cbn [map] in Hs. apply StronglySorted_inv in Hs. destruct Hs as [Hs Hall].
  cbn [map filter]. destruct (f (fst row)) eqn:E.
  - cbn [length firstn map]. rewrite (IH Hs). reflexivity.
  - assert (Hnone : Forall (fun row' => f (fst row') = false) rows).
    { apply Forall_forall. intros row' Hin.
      destruct (f (fst row')) eqn:E'; [|reflexivity].
      rewrite Forall_forall in Hall.
      rewrite (Hf (fst row) (fst row')) in E; [discriminate| |exact E'].
      apply Hall. apply in_map. exact Hin. }
    rewrite (filter_none _ rows Hnone).
    rewrite filter_none; [reflexivity|].
    clear - Hnone. induction Hnone; constructor; assumption.
Qed.

Lemma descending_strongly (ps : list float) :
  descending ps -> StronglySorted (fun p q => (q <=? p) = true) ps.
Proof.
  apply Sorted_StronglySorted. intros p q r Hpq Hqr.
  apply (leb_trans r q p); assumption.
Qed.

Lemma ascending_strongly (ps : list float) :
  ascending ps -> StronglySorted (fun p q => (p <=? q) = true) ps.
Proof.
  apply Sorted_StronglySorted. intros p q r Hpq Hqr.
  apply (leb_trans p q r); assumption.
Qed.

(** X9: the code counts the prices inside the band and sums the
    quantities of that many leading rows.  On a book sorted best price first
    (bids by decreasing price, asks by increasing price) the two totals are
    the sums of the quantities of exactly the levels inside the band. *)
Theorem sorted_book_totals (bids asks : side_t) (bb ba d : float) :
  descending (map fst bids) -> ascending (map fst asks) ->
  total_bid_size_within_depth (map fst bids) (map snd bids) bb d
  = Np.sum (map snd (filter (fun row => Np.geb (fst row) (min_bid bb d)) bids))
  /\ total_ask_size_within_depth (map fst asks) (map snd asks) ba d
     = Np.sum (map snd (filter (fun row => fst row <=? max_ask ba d) asks)).
Proof.
  intros Hb Ha.
  unfold total_bid_size_within_depth, total_ask_size_within_depth,
         num_bids_within_depth, num_asks_within_depth.
  split; f_equal.
  - apply (prefix_is_filter (fun p q => (q <=? p) = true)
                            (fun p => Np.geb p (min_bid bb d))).
    + unfold Np.geb. intros p q Hqp Hq. apply (leb_trans _ q p); assumption.
    + apply descending_strongly. exact Hb.
  - apply (prefix_is_filter (fun p q => (p <=? q) = true)
                            (fun p => p <=? max_ask ba d)).
    + intros p q Hpq Hq. apply (leb_trans p q _); assumption.
    + apply ascending_strongly. exact Ha.
Qed.

Lemma sorted_book_totals_witness :
  total_bid_size_within_depth (map fst bids5) (map snd bids5) 100 0.00390625
  = Np.sum (map snd (filter (fun row => Np.geb (fst row)
                                               (min_bid 100 0.00390625))
                            bids5))
  /\ total_ask_size_within_depth (map fst asks5) (map snd asks5) 101 0.00390625
     = Np.sum (map snd (filter (fun row => fst row <=? max_ask 101 0.00390625)
                               asks5)).
Proof.
  apply (sorted_book_totals bids5 asks5 100 101 0.00390625);
    repeat constructor.
Defined.

(** Without the order the prefix holds levels outside the band. *)
Lemma unsorted_book_prefix :
  let bids := [(100, 0.5); (90, 0.25); (99.75, 0.125)] : side_t in
  map snd (filter (fun row => Np.geb (fst row) (min_bid 100 0.0078125)) bids)
  = [0.5; 0.125]
  /\ firstn (num_bids_within_depth (map fst bids) (min_bid 100 0.0078125))
            (map snd bids) = [0.5; 0.25].
Proof. split; reflexivity. Qed.
End OrderBookProperties.
